(** * bookstore_manager: the sale-transaction engine of [bm.py]

    A shallow embedding of [initialize_db], [add_sale], [update_sale] and
    [delete_sale] over a model of the SQLite store they talk to, of
    [print_sale_report], [connect_db] and [main] over a model of the
    terminal, and the properties of the specification that concern them.

    A Python [int] is a [Z], a Python [str] a [string] that holds the bytes
    of its UTF-8 encoding (so a character outside ASCII takes two to four
    elements, and [len] below counts characters, not elements), a table a
    finite map from its primary key to the row, and a function that uses
    the connection a state-and-error computation over the database.

    The statements of the store fail as their arguments and the rows make
    them fail: a duplicate primary key, an integer beyond 64 bits, no
    identifier left.  Failures that reach the program from outside (the
    file system, a lock another process holds) are not part of the model;
    the handlers the program has for them are kept in the embedding. *)

From Stdlib Require Import Ascii String.
From stdpp Require Import gmap strings list fin_maps sorting pretty.

Local Open Scope string_scope.
Local Open Scope Z_scope.

(** ** The store *)

(** SQLite stores an INTEGER as a signed 64-bit value.  Python integers are
    unbounded; the [sqlite3] module refuses to bind one outside this range
    ([OverflowError: Python int too large to convert to SQLite INTEGER]). *)
Definition SQLITE_INT_MIN : Z := - 2 ^ 63.
Definition SQLITE_INT_MAX : Z := 2 ^ 63 - 1.

Definition fits_int64 (z : Z) : bool :=
  (SQLITE_INT_MIN <=? z) && (z <=? SQLITE_INT_MAX).

(** One record per table row; the primary key is the key of the map that
    holds the rows, the other columns are the fields. *)
Record member_row := MemberRow {
  mname : string;
  mphone : string;
  memail : option string
}.

Record book_row := BookRow {
  btitle : string;
  bprice : Z;
  bstock : Z
}.

Record sale_row := SaleRow {
  sdate : string;
  mid : string;
  bid : string;
  sqty : Z;
  sdiscount : Z;
  stotal : Z
}.

(** The connection's view of the database once the three tables exist.
    [sale_seq] is the [sqlite_sequence] entry that AUTOINCREMENT keeps for
    [sale]: the largest [sid] ever handed out (0 before the first insert). *)
Record db := Db {
  member : gmap string member_row;
  book : gmap string book_row;
  sale : gmap Z sale_row;
  sale_seq : Z
}.

(** A database file as [initialize_db] may find it: each table is either
    absent or present with its rows. *)
Record store := Store {
  member_tbl : option (gmap string member_row);
  book_tbl : option (gmap string book_row);
  sale_tbl : option (gmap Z sale_row * Z)
}.

Definition empty_store : store := Store None None None.

Definition store_of (d : db) : store :=
  Store (Some (member d)) (Some (book d)) (Some (sale d, sale_seq d)).

(** ** Exceptions and the state-and-error monad *)

Inductive exn :=
  | OverflowError
  | OperationalError
  | IntegrityError (e : string)
  | IndexError
  | EOFError.

Inductive outcome (A : Type) :=
  | Val (a : A)
  | Exc (e : exn).
Arguments Val {A} a.
Arguments Exc {A} e.

Definition M (A : Type) : Type := db → outcome A * db.

Definition ret {A} (a : A) : M A := λ d, (Val a, d).

Definition bind {A B} (m : M A) (k : A → M B) : M B :=
  λ d, match m d with
       | (Val a, d') => k a d'
       | (Exc e, d') => (Exc e, d')
       end.

Definition raise {A} (e : exn) : M A := λ d, (Exc e, d).

(** [try: m except sqlite3.IntegrityError as e: h e] *)
Definition except_IntegrityError {A} (m : M A) (h : string → M A) : M A :=
  λ d, match m d with
       | (Exc (IntegrityError e), d') => h e d'
       | r => r
       end.

Declare Scope sql_scope.
Delimit Scope sql_scope with sql.
Notation "x <~ m ;; k" := (bind m (λ x, k))
  (at level 100, m at next level, right associativity) : sql_scope.
Notation "m ;;; k" := (bind m (λ _, k))
  (at level 100, right associativity) : sql_scope.
Local Open Scope sql_scope.

(** ** SQL statements used by the program *)

(** [SELECT 1 FROM member WHERE mid = ?] then [fetchone()] *)
Definition select_member (mid : string) : M (option member_row) :=
  λ d, (Val (member d !! mid), d).

(** [SELECT bprice, bstock FROM book WHERE bid = ?] then [fetchone()] *)
Definition select_book (bid : string) : M (option book_row) :=
  λ d, (Val (book d !! bid), d).

(** The largest rowid present in [sale]; the rowids SQLite hands out start
    at 1, and 0 stands for a table without rows. *)
Definition max_rowid (rows : gmap Z sale_row) : Z :=
  map_fold (λ k _ acc, Z.max k acc) 0 rows.

(** The largest rowid that is or ever was in [sale]. *)
Definition last_sid (d : db) : Z := Z.max (max_rowid (sale d)) (sale_seq d).

(** The rowid AUTOINCREMENT assigns to the next row: one more than
    [last_sid].  Once the largest possible rowid has been used the insert
    fails with SQLITE_FULL, which [sqlite3] raises as [OperationalError]. *)
Definition next_sid (d : db) : option Z :=
  let last := last_sid d in
  if last <? SQLITE_INT_MAX then Some (last + 1) else None.

(** [INSERT INTO sale (sdate, mid, bid, sqty, sdiscount, stotal)
     VALUES (?, ?, ?, ?, ?, ?)]: the three integers are bound first, then
    the row is stored under a fresh [sid]. *)
Definition insert_sale (r : sale_row) : M unit :=
  λ d,
    if fits_int64 (sqty r) && fits_int64 (sdiscount r) && fits_int64 (stotal r)
    then match next_sid d with
         | Some sid =>
             (Val (), Db (member d) (book d) (<[sid := r]> (sale d)) sid)
         | None => (Exc OperationalError, d)
         end
    else (Exc OverflowError, d).

(** [UPDATE book SET bstock = bstock - ? WHERE bid = ?]; a [bid] that is
    not in the table updates no row. *)
Definition decrement_stock (q : Z) (b : book_row) : book_row :=
  BookRow (btitle b) (bprice b) (bstock b - q).

Definition update_book_stock (q : Z) (bid : string) : M unit :=
  λ d,
    if fits_int64 q
    then (Val (), Db (member d) (alter (decrement_stock q) bid (book d))
                     (sale d) (sale_seq d))
    else (Exc OverflowError, d).

(** [conn.commit()]: the state modelled is the connection's own view, which
    a commit does not change. *)
Definition commit : M unit := ret ().

(** ** [add_sale] *)

(** [len(s)]: the number of characters of [s].  In UTF-8 every character
    starts with one byte that is not a continuation byte [10xxxxxx] and goes
    on with continuation bytes only, so the characters are counted by their
    first bytes. *)
Definition continuation_byte (a : Ascii.ascii) : bool :=
  match a with
  | Ascii.Ascii _ _ _ _ _ _ b6 b7 => b7 && negb b6
  end.

Fixpoint len (s : string) : nat :=
  match s with
  | EmptyString => 0%nat
  | String a s' => ((if continuation_byte a then 0 else 1) + len s')%nat
  end.

(** [sdate.count('-')]; the byte of ['-'] occurs in UTF-8 as that character
    only. *)
Fixpoint count_char (c : Ascii.ascii) (s : string) : nat :=
  match s with
  | EmptyString => 0%nat
  | String a s' => ((if decide (a = c) then 1 else 0) + count_char c s')%nat
  end.

Definition msg_date_format : string := "❌ 日期格式錯誤，應為 YYYY-MM-DD。".
Definition msg_bounds : string := "❌ 數量必須 > 0，折扣金額不得為負數。".
Definition msg_no_member (mid : string) : string :=
  "❌ 會員編號 " +:+ mid +:+ " 不存在。".
Definition msg_no_book (bid : string) : string :=
  "❌ 書籍編號 " +:+ bid +:+ " 不存在。".
Definition msg_no_stock (bstock : Z) : string :=
  "❌ 庫存不足，目前庫存為 " +:+ pretty bstock +:+ " 本。".
Definition msg_added (stotal : Z) : string :=
  "✅ 銷售記錄已新增！(銷售總額: " +:+ pretty stotal +:+ ")".
Definition msg_error (e : string) : string := "❌ 錯誤：" +:+ e.

Definition add_sale (sdate mid bid : string) (sqty sdiscount : Z)
  : M (bool * string) :=
  if negb (len sdate =? 10)%nat
     || negb (count_char "-"%char sdate =? 2)%nat
  then ret (false, msg_date_format)
  else if (sqty <=? 0) || (sdiscount <? 0)
  then ret (false, msg_bounds)
  else
    m <~ select_member mid ;;
    match m with
    | None => ret (false, msg_no_member mid)
    | Some _ =>
        book <~ select_book bid ;;
        match book with
        | None => ret (false, msg_no_book bid)
        | Some book =>
            let bprice := bprice book in
            let bstock := bstock book in
            if sqty >? bstock
            then ret (false, msg_no_stock bstock)
            else
              let stotal := bprice * sqty - sdiscount in
              let stotal := if stotal <? 0 then 0 else stotal in
              except_IntegrityError
                (insert_sale (SaleRow sdate mid bid sqty sdiscount stotal) ;;;
                 update_book_stock sqty bid ;;;
                 commit ;;;
                 ret (true, msg_added stotal))
                (λ e, ret (false, msg_error e))
        end
    end.

(** ** [initialize_db] *)

(** [CREATE TABLE IF NOT EXISTS]: an absent table is created empty, a
    present one is left as it is. *)
Definition create_table_if_not_exists {T} (fresh : T) (t : option T) : T :=
  match t with
  | Some rows => rows
  | None => fresh
  end.

Definition create_tables (s : store) : db :=
  let sale := create_table_if_not_exists (∅, 0) (sale_tbl s) in
  Db (create_table_if_not_exists ∅ (member_tbl s))
     (create_table_if_not_exists ∅ (book_tbl s))
     sale.1 sale.2.

(** The tables the first script has to create. *)
Definition missing_tables (s : store) : list string :=
  (if bool_decide (member_tbl s = None) then ["member"] else []) ++
  (if bool_decide (book_tbl s = None) then ["book"] else []) ++
  (if bool_decide (sale_tbl s = None) then ["sale"] else []).

(** [INSERT INTO member VALUES (...)]; [mid] is the primary key. *)
Definition insert_member (k : string) (r : member_row) : M unit :=
  λ d, match member d !! k with
       | Some _ =>
           (Exc (IntegrityError "UNIQUE constraint failed: member.mid"), d)
       | None =>
           (Val (), Db (<[k := r]> (member d)) (book d) (sale d) (sale_seq d))
       end.

(** [INSERT INTO book VALUES (...)]; [bid] is the primary key. *)
Definition insert_book (k : string) (r : book_row) : M unit :=
  λ d, match book d !! k with
       | Some _ =>
           (Exc (IntegrityError "UNIQUE constraint failed: book.bid"), d)
       | None =>
           (Val (), Db (member d) (<[k := r]> (book d)) (sale d) (sale_seq d))
       end.

Definition seed_members : list (string * member_row) :=
  [ ("M001", MemberRow "Alice" "0912-345678" (Some "alice@example.com"));
    ("M002", MemberRow "Bob" "0923-456789" (Some "bob@example.com"));
    ("M003", MemberRow "Cathy" "0934-567890" (Some "cathy@example.com")) ].

Definition seed_books : list (string * book_row) :=
  [ ("B001", BookRow "Python Programming" 600 50);
    ("B002", BookRow "Data Science Basics" 800 30);
    ("B003", BookRow "Machine Learning Guide" 1200 20) ].

Definition seed_sales : list sale_row :=
  [ SaleRow "2024-01-15" "M001" "B001" 2 100 1100;
    SaleRow "2024-01-16" "M002" "B002" 1 50 750;
    SaleRow "2024-01-17" "M001" "B003" 3 200 3400;
    SaleRow "2024-01-18" "M003" "B001" 1 0 600 ].

(** Statements of a script run one after the other; the first that raises
    stops the script and what ran before it stays. *)
Fixpoint script (stmts : list (M unit)) : M unit :=
  match stmts with
  | [] => ret ()
  | stmt :: rest => stmt ;;; script rest
  end.

Definition seed_script : M unit :=
  script ((λ '(k, r), insert_member k r) <$> seed_members) ;;;
  script ((λ '(k, r), insert_book k r) <$> seed_books) ;;;
  script (insert_sale <$> seed_sales).

(** [SELECT COUNT( * ) FROM member] *)
Definition count_member : M nat := λ d, (Val (size (member d)), d).

Definition initialize_db (s : store) : outcome unit * db :=
  (n <~ count_member ;;
   (if (n =? 0)%nat then seed_script else ret ()) ;;;
   commit) (create_tables s).

(** ** Interactive input *)

(** What [input(...).strip()] delivers, as the program tells it apart: an
    empty line, a line [int] rejects with [ValueError], or a line [int]
    reads as the integer [z]. *)
Inductive line :=
  | Blank
  | Junk
  | Num (z : Z).

(** What the operation prints last (the listing of the sales that precedes
    the prompt is not modelled). *)
Inductive notice :=
  | NoSales
  | Cancelled
  | OutOfRange
  | NotANumber
  | NegativeDiscount
  | DiscountNotInteger
  | SaleNotFound
  | Updated (sid stotal : Z)
  | Deleted (sid : Z)
  | DeleteFailed.

(** [ORDER BY s.sid] *)
Definition sorted_sids (rows : gmap Z sale_row) : list Z :=
  merge_sort Z.le (map_to_list rows).*1.

(** [SELECT s.sid, s.sdate, m.mname FROM sale s
     JOIN member m ON s.mid = m.mid ORDER BY s.sid] then [fetchall()] *)
Definition joined_row (d : db) (sid : Z) : option (Z * string * string) :=
  r ← sale d !! sid;
  m ← member d !! mid r;
  Some (sid, sdate r, mname m).

Definition sales_listing (d : db) : list (Z * string * string) :=
  omap (joined_row d) (sorted_sids (sale d)).

Definition select_sales : M (list (Z * string * string)) :=
  λ d, (Val (sales_listing d), d).

(** In the three statements below [sid] is a value the listing has just
    read from the table, so binding it cannot overflow. *)

(** [SELECT s.sqty, b.bprice FROM sale s JOIN book b ON s.bid = b.bid
     WHERE s.sid = ?] then [fetchone()] *)
Definition select_qty_price (sid : Z) : M (option (Z * Z)) :=
  λ d, (Val (r ← sale d !! sid;
             b ← book d !! bid r;
             Some (sqty r, bprice b)), d).

Definition set_discount (new_discount stotal : Z) (r : sale_row) : sale_row :=
  SaleRow (sdate r) (mid r) (bid r) (sqty r) new_discount stotal.

(** [UPDATE sale SET sdiscount = ?, stotal = ? WHERE sid = ?] *)
Definition update_sale_discount (new_discount stotal sid : Z) : M unit :=
  λ d, if fits_int64 new_discount && fits_int64 stotal
       then (Val (), Db (member d) (book d)
                        (alter (set_discount new_discount stotal) sid (sale d))
                        (sale_seq d))
       else (Exc OverflowError, d).

(** [DELETE FROM sale WHERE sid = ?]; the [sqlite_sequence] entry stays. *)
Definition delete_from_sale (sid : Z) : M unit :=
  λ d, (Val (), Db (member d) (book d) (delete sid (sale d)) (sale_seq d)).

(** [try: m except sqlite3.Error as e: h]; [OverflowError] and [EOFError]
    are not [sqlite3.Error]s. *)
Definition except_sqlite3_Error {A} (m : M A) (h : M A) : M A :=
  λ d, match m d with
       | (Exc OperationalError, d') => h d'
       | (Exc (IntegrityError _), d') => h d'
       | r => r
       end.

(** [sales[i - 1]['sid']] for [1 <= i <= len(sales)] *)
Definition nth_sid (sales : list (Z * string * string)) (i : Z) : option Z :=
  (λ row, row.1.1) <$> sales !! Z.to_nat (i - 1).

(** ** [update_sale] *)

(** The part of [update_sale] that runs once the sale and the new discount
    are known: re-read quantity and price, recompute, store, report. *)
Definition apply_discount (sid new_discount : Z) : M notice :=
  data <~ select_qty_price sid ;;
  match data with
  | None => ret SaleNotFound
  | Some (sqty, bprice) =>
      let stotal := Z.max (bprice * sqty - new_discount) 0 in
      update_sale_discount new_discount stotal sid ;;;
      commit ;;;
      ret (Updated sid stotal)
  end.

Definition update_sale (stdin : list line) : M notice :=
  sales <~ select_sales ;;
  match sales with
  | [] => ret NoSales
  | _ =>
      match stdin with
      | [] => raise EOFError
      | Blank :: _ => ret Cancelled
      | Junk :: _ => ret NotANumber
      | Num idx :: stdin =>
          if (idx <? 1) || (idx >? Z.of_nat (length sales))
          then ret OutOfRange
          else
            match nth_sid sales idx with
            | None => raise IndexError
            | Some sid =>
                match stdin with
                | [] => raise EOFError
                | Blank :: _ | Junk :: _ => ret DiscountNotInteger
                | Num new_discount :: _ =>
                    if new_discount <? 0
                    then ret NegativeDiscount
                    else apply_discount sid new_discount
                end
            end
      end
  end.

(** ** [delete_sale] *)

(** The [while True] loop that reads the choice: [None] when the user
    cancels, and lines that are not a number in range are asked again. *)
Fixpoint read_choice (n : nat) (stdin : list line) : outcome (option Z) :=
  match stdin with
  | [] => Exc EOFError
  | Blank :: _ => Val None
  | Junk :: stdin => read_choice n stdin
  | Num choice :: stdin =>
      if (choice <? 1) || (choice >? Z.of_nat n)
      then read_choice n stdin
      else Val (Some choice)
  end.

Definition delete_sale (stdin : list line) : M notice :=
  sales <~ select_sales ;;
  match sales with
  | [] => ret NoSales
  | _ =>
      match read_choice (length sales) stdin with
      | Exc e => raise e
      | Val None => ret Cancelled
      | Val (Some choice) =>
          match nth_sid sales choice with
          | None => raise IndexError
          | Some sid_to_delete =>
              except_sqlite3_Error
                (delete_from_sale sid_to_delete ;;;
                 commit ;;;
                 ret (Deleted sid_to_delete))
                (ret DeleteFailed)
          end
      end
  end.

(** ** Vocabulary of the specification *)

(** The state [initialize_db] leaves behind on a database file that holds
    no table yet. *)
Definition seeded_db : db := (initialize_db empty_store).2.

(** Date shape: exactly 10 characters and exactly 2 hyphens. *)
Definition date_shape (sdate : string) : Prop :=
  len sdate = 10%nat ∧ count_char "-" sdate = 2%nat.

Global Instance date_shape_dec sdate : Decision (date_shape sdate).
Proof. unfold date_shape. apply _. Defined.

(** The pricing formula: [max(price * qty - discount, 0)]. *)
Definition price_total (bprice sqty sdiscount : Z) : Z :=
  Z.max (bprice * sqty - sdiscount) 0.

(** A sale row whose stored total is the pricing formula applied to the
    price of the book it refers to. *)
Definition priced_by_formula (d : db) (r : sale_row) : bool :=
  match book d !! bid r with
  | Some b => stotal r =? price_total (bprice b) (sqty r) (sdiscount r)
  | None => false
  end.

(** The store after the sale [r] has been recorded as row [sid]: the row is
    in [sale], the counter is at [sid] and the book's stock is reduced. *)
Definition sold (d : db) (sid : Z) (r : sale_row) : db :=
  Db (member d) (alter (decrement_stock (sqty r)) (bid r) (book d))
     (<[sid := r]> (sale d)) sid.

(** The store after row [sid] has got a new discount and total. *)
Definition discounted (d : db) (sid new_discount stotal : Z) : db :=
  Db (member d) (book d)
     (alter (set_discount new_discount stotal) sid (sale d)) (sale_seq d).

(** The store after row [sid] has been removed. *)
Definition removed (d : db) (sid : Z) : db :=
  Db (member d) (book d) (delete sid (sale d)) (sale_seq d).

(** Lines the loop of [delete_sale] answers with a request for a valid number. *)
Definition asked_again (n : nat) (l : line) : Prop :=
  match l with
  | Blank => False
  | Junk => True
  | Num choice => choice < 1 ∨ Z.of_nat n < choice
  end.

(** [rows] stored one after the other into a table. *)
Definition with_rows `{Countable K} {V} (rows : list (K * V)) (m : gmap K V)
  : gmap K V :=
  foldl (λ m kv, <[kv.1 := kv.2]> m) m rows.



(** A computation that leaves the [member] table as it is, whether it
    returns or raises. *)
Definition keeps_member {A} (m : M A) : Prop :=
  ∀ d, member (m d).2 = member d.

(** The operations of the engine, with the input each one consumes. *)
Inductive op :=
  | CreateSale (sdate mid bid : string) (sqty sdiscount : Z)
  | UpdateDiscount (stdin : list line)
  | DeleteSale (stdin : list line).

Definition run_op (o : op) (d : db) : db :=
  match o with
  | CreateSale sdate mid bid sqty sdiscount =>
      (add_sale sdate mid bid sqty sdiscount d).2
  | UpdateDiscount stdin => (update_sale stdin d).2
  | DeleteSale stdin => (delete_sale stdin d).2
  end.

(** [steps d d']: [d'] is [d] after some sequence of operations. *)
Inductive steps (d : db) : db → Prop :=
  | steps_refl : steps d d
  | steps_op d' o : steps d d' → steps d (run_op o d').

Definition reachable : db → Prop := steps seeded_db.

(** Every [sid] in the table has been counted by [sqlite_sequence]. *)
Definition seq_covers (d : db) : Prop :=
  ∀ sid r, sale d !! sid = Some r → sid ≤ sale_seq d.

Definition stock_nonneg (d : db) : Prop :=
  ∀ bid b, book d !! bid = Some b → 0 ≤ bstock b.

(** ** Further vocabulary: what the operations keep *)

(** A sale row as the data model wants it: positive quantity, non-negative
    discount, an existing member, an existing book, and a total that is the
    pricing formula at the book's current price. *)
Definition sale_row_ok (d : db) (r : sale_row) : Prop :=
  0 < sqty r ∧ 0 ≤ sdiscount r ∧ is_Some (member d !! mid r) ∧
  ∃ b, book d !! bid r = Some b ∧
       stotal r = price_total (bprice b) (sqty r) (sdiscount r).

Definition sale_rows_ok (d : db) : Prop :=
  ∀ sid r, sale d !! sid = Some r → sale_row_ok d r.

(** A book row as it may look after some sales: same title and price, stock
    not larger than before. *)
Definition book_row_after (b b' : book_row) : Prop :=
  btitle b' = btitle b ∧ bprice b' = bprice b ∧ bstock b' ≤ bstock b.

(** The [book] table after some operations: the same identifiers, each row
    as above. *)
Definition book_table_after (books books' : gmap string book_row) : Prop :=
  ∀ bid, match books !! bid, books' !! bid with
         | Some b, Some b' => book_row_after b b'
         | None, None => True
         | _, _ => False
         end.

(** [sale_row_ok] as a check that can be run. *)
Definition sale_row_okb (d : db) (r : sale_row) : bool :=
  (0 <? sqty r) && (0 <=? sdiscount r) &&
  bool_decide (is_Some (member d !! mid r)) && priced_by_formula d r.

(** ** The terminal *)

(** What the program writes: a line written by [print], or the prompt of an
    [input] call (written without a line break). *)
Inductive output :=
  | Print (s : string)
  | Prompt (s : string).

(** The connection, the lines the user is still going to type (each as
    [.strip()] leaves it) and what has been written so far. *)
Record world := World {
  conn : db;
  stdin : list string;
  stdout : list output
}.

(** An exception that leaves a function: one of those the store operations
    raise, or the [ValueError] of [int]. *)
Inductive crash :=
  | Uncaught (e : exn)
  | ValueError.

Inductive result (A : Type) :=
  | Done (a : A)
  | Crash (c : crash).
Arguments Done {A} a.
Arguments Crash {A} c.

Definition IO (A : Type) : Type := world → result A * world.

Definition io_ret {A} (a : A) : IO A := λ w, (Done a, w).

Definition io_bind {A B} (m : IO A) (k : A → IO B) : IO B :=
  λ w, match m w with
       | (Done a, w') => k a w'
       | (Crash c, w') => (Crash c, w')
       end.

Definition io_raise {A} (c : crash) : IO A := λ w, (Crash c, w).

Declare Scope io_scope.
Delimit Scope io_scope with io.
Notation "x <~ m ;; k" := (io_bind m (λ x, k))
  (at level 100, m at next level, right associativity) : io_scope.
Notation "m ;;; k" := (io_bind m (λ _, k))
  (at level 100, right associativity) : io_scope.
Local Open Scope io_scope.

(** A statement on the connection, run from the terminal session. *)
Definition lift {A} (m : M A) : IO A :=
  λ w, let (o, d) := m (conn w) in
       (match o with
        | Val a => Done a
        | Exc e => Crash (Uncaught e)
        end, World d (stdin w) (stdout w)).

(** [print(s)] *)
Definition print (s : string) : IO unit :=
  λ w, (Done (), World (conn w) (stdin w) (stdout w ++ [Print s])).

(** [input().strip()]: the next line, [EOFError] when there is none. *)
Definition read_line : IO string :=
  λ w, match stdin w with
       | [] => (Crash (Uncaught EOFError), w)
       | l :: rest => (Done l, World (conn w) rest (stdout w))
       end.

(** [input(prompt).strip()] *)
Definition input (prompt : string) : IO string :=
  λ w, read_line (World (conn w) (stdin w) (stdout w ++ [Prompt prompt])).

(** [for x in l: body(x)] *)
Fixpoint for_each {A} (l : list A) (body : A → IO unit) : IO unit :=
  match l with
  | [] => io_ret ()
  | x :: l => body x ;;; for_each l body
  end.

(** [enumerate(l, start)] *)
Fixpoint enumerate {A} (start : nat) (l : list A) : list (nat * A) :=
  match l with
  | [] => []
  | x :: l => (start, x) :: enumerate (S start) l
  end.

(** ** Formatting *)

(** [s * n] *)
Fixpoint str_times (s : string) (n : nat) : string :=
  match n with
  | O => ""
  | S n => s +:+ str_times s n
  end.

(** The format [:<width] for a value whose text is [s]. *)
Definition ljust (width : nat) (s : string) : string :=
  s +:+ str_times " " (width - len s).

(** The format [:,]: the decimal digits in groups of three, counted from
    the right and separated by commas, after the sign. *)
Fixpoint group3 (rev_digits : list Ascii.ascii) : list Ascii.ascii :=
  match rev_digits with
  | a :: b :: c :: rest =>
      match rest with
      | [] => rev_digits
      | _ :: _ => a :: b :: c :: ","%char :: group3 rest
      end
  | _ => rev_digits
  end.

Definition with_commas (digits : string) : string :=
  string_of_list_ascii
    (reverse (group3 (reverse (list_ascii_of_string digits)))).

Definition thousands (z : Z) : string :=
  match z with
  | Zneg p => "-" +:+ with_commas (pretty (Zpos p))
  | _ => with_commas (pretty z)
  end.

(** [s.replace(',', '')] *)
Fixpoint without_commas (s : string) : string :=
  match s with
  | EmptyString => EmptyString
  | String a s => if decide (a = ","%char) then without_commas s
                  else String a (without_commas s)
  end.

(** ** [print_sale_report] *)

Record report_row := ReportRow {
  r_sid : Z;
  r_sdate : string;
  r_sqty : Z;
  r_sdiscount : Z;
  r_stotal : Z;
  r_mname : string;
  r_btitle : string;
  r_bprice : Z
}.

(** [SELECT s.sid, s.sdate, s.sqty, s.sdiscount, s.stotal,
            m.mname, b.btitle, b.bprice
     FROM sale s JOIN member m ON s.mid = m.mid JOIN book b ON s.bid = b.bid
     ORDER BY s.sid] then [fetchall()] *)
Definition report_row_of (d : db) (sid : Z) : option report_row :=
  r ← sale d !! sid;
  m ← member d !! mid r;
  b ← book d !! bid r;
  Some (ReportRow sid (sdate r) (sqty r) (sdiscount r) (stotal r)
                  (mname m) (btitle b) (bprice b)).

Definition report_rows (d : db) : list report_row :=
  omap (report_row_of d) (sorted_sids (sale d)).

Definition select_report : M (list report_row) :=
  λ d, (Val (report_rows d), d).

(** The heading of the columns;
    [f"{'單價':<8}{'數量':<8}{'折扣':<10}{'小計':<8}"], each label being two
    characters long. *)
Definition report_columns : string :=
  ljust 8 "單價" +:+ ljust 8 "數量" +:+ ljust 10 "折扣" +:+ ljust 8 "小計".

(** The twelve lines printed for one sale. *)
Definition report_block (idx : nat) (row : report_row) : list string :=
  [ "銷售 #" +:+ pretty idx;
    "銷售編號: " +:+ pretty (r_sid row);
    "銷售日期: " +:+ r_sdate row;
    "會員姓名: " +:+ r_mname row;
    "書籍標題: " +:+ r_btitle row;
    str_times "-" 50;
    report_columns;
    str_times "-" 50;
    ljust 10 (pretty (r_bprice row)) +:+ ljust 10 (pretty (r_sqty row)) +:+
      ljust 12 (pretty (r_sdiscount row)) +:+
      ljust 5 (thousands (r_stotal row));
    str_times "-" 50;
    "銷售總額: " +:+ thousands (r_stotal row);
    str_times "=" 50 ].

Definition print_sale_report : IO unit :=
  rows <~ lift select_report ;;
  match rows with
  | [] => print "⚠️ 沒有銷售紀錄。"
  | _ =>
      print (str_times "=" 25 +:+ " 銷售報表 " +:+ str_times "=" 25) ;;;
      for_each (enumerate 1 rows)
        (λ '(idx, row), for_each (report_block idx row) print)
  end.

(** ** The interactive functions at the terminal *)

(** [print_sale_report] above, and [update_sale], [delete_sale] and [main]
    below, embedded with what they read and write.  Python's [int] on a
    stripped line is a parameter: [int s] is [None] where Python raises
    [ValueError].  The empty line is never handed to it, since [int('')]
    raises. *)
Section terminal.
Variable int : string → option Z.

Definition classify (s : string) : line :=
  if decide (s = "") then Blank
  else match int s with
       | Some z => Num z
       | None => Junk
       end.

(** [int(input(prompt).strip())] outside any [try] *)
Definition input_int (prompt : string) : IO Z :=
  s <~ input prompt ;;
  match classify s with
  | Num z => io_ret z
  | _ => io_raise ValueError
  end.

(** The listing both [update_sale] and [delete_sale] print. *)
Definition listing_line (idx : nat) (row : Z * string * string) : string :=
  pretty idx +:+ ". 銷售編號: " +:+ pretty row.1.1 +:+
  " - 會員: " +:+ row.2 +:+ " - 日期: " +:+ row.1.2.

Definition print_listing (sales : list (Z * string * string)) : IO unit :=
  print "======== 銷售記錄列表 ========" ;;;
  for_each (enumerate 1 sales) (λ '(idx, row), print (listing_line idx row)) ;;;
  print "================================".

Definition apply_discount_io (sid new_discount : Z) : IO unit :=
  data <~ lift (select_qty_price sid) ;;
  match data with
  | None => print "❌ 查無該銷售編號。"
  | Some (sqty, bprice) =>
      let stotal := Z.max (bprice * sqty - new_discount) 0 in
      lift (update_sale_discount new_discount stotal sid) ;;;
      lift commit ;;;
      print ("✅ 銷售編號 " +:+ pretty sid +:+ " 已更新！(銷售總額: " +:+
             thousands stotal +:+ ")")
  end.

Definition update_sale_io : IO unit :=
  sales <~ lift select_sales ;;
  match sales with
  | [] => print "⚠️ 沒有銷售紀錄可更新。"
  | _ =>
      print_listing sales ;;;
      choice <~ input "請選擇要更新的銷售編號 (輸入數字或按 Enter 取消): " ;;
      match classify choice with
      | Blank => print "➡️ 已取消更新。"
      | Junk => print "❌ 請輸入有效的數字。"
      | Num idx =>
          if (idx <? 1) || (idx >? Z.of_nat (length sales))
          then print "❌ 輸入的選項超出範圍。"
          else
            match nth_sid sales idx with
            | None => io_raise (Uncaught IndexError)
            | Some sid =>
                text <~ input "請輸入新的折扣金額：" ;;
                match classify text with
                | Blank | Junk => print "❌ 折扣金額須為整數。"
                | Num new_discount =>
                    if new_discount <? 0
                    then print "❌ 折扣金額不得為負數。"
                    else apply_discount_io sid new_discount
                end
            end
      end
  end.

(** The [while True] loop of [delete_sale], on the lines still to come and
    the output so far: it prompts, reads, and starts over after a line that
    is not a number of the listing. *)
Fixpoint ask_choice (n : nat) (lines : list string) (out : list output)
  : result (option Z) * (list string * list output) :=
  let out : list output :=
    (out ++ [Prompt "請選擇要刪除的銷售編號 (輸入數字或按 Enter 取消): "])%list
  in
  match lines with
  | [] => (Crash (Uncaught EOFError), ([], out))
  | l :: lines =>
      match classify l with
      | Blank =>
          (Done None, (lines, (out ++ [Print "✅ 已取消刪除操作。"])%list))
      | Junk =>
          ask_choice n lines
            (out ++ [Print "❌ 錯誤：請輸入有效的數字"])%list
      | Num choice =>
          if (choice <? 1) || (choice >? Z.of_nat n)
          then ask_choice n lines
                 (out ++ [Print "❌ 錯誤：請輸入有效的數字"])%list
          else (Done (Some choice), (lines, out))
      end
  end.

Definition choose (n : nat) : IO (option Z) :=
  λ w, let '(r, (lines, out)) := ask_choice n (stdin w) (stdout w) in
       (r, World (conn w) lines out).

(** [str(e)] for the exceptions of the store. *)
Definition exn_text (e : exn) : string :=
  match e with
  | IntegrityError s => s
  | OperationalError => "database or disk is full"
  | OverflowError => "Python int too large to convert to SQLite INTEGER"
  | IndexError => "list index out of range"
  | EOFError => "EOF when reading a line"
  end.

(** [try: m except sqlite3.Error as e: h e] at the terminal *)
Definition io_except_sqlite3_Error {A} (m : IO A) (h : exn → IO A) : IO A :=
  λ w, match m w with
       | (Crash (Uncaught OperationalError), w') => h OperationalError w'
       | (Crash (Uncaught (IntegrityError s)), w') => h (IntegrityError s) w'
       | r => r
       end.

Definition delete_sale_io : IO unit :=
  sales <~ lift select_sales ;;
  match sales with
  | [] => print "⚠️ 沒有銷售紀錄可刪除。"
  | _ =>
      print_listing sales ;;;
      choice <~ choose (length sales) ;;
      match choice with
      | None => io_ret ()
      | Some choice =>
          match nth_sid sales choice with
          | None => io_raise (Uncaught IndexError)
          | Some sid_to_delete =>
              io_except_sqlite3_Error
                (lift (delete_from_sale sid_to_delete) ;;;
                 lift commit ;;;
                 print ("✅ 銷售編號 " +:+ pretty sid_to_delete +:+ " 已刪除"))
                (λ e, print ("❌ 刪除失敗：" +:+ exn_text e))
          end
      end
  end.

(** ** [connect_db] and [main] *)

(** [sqlite3.connect] opens the database file and creates it, without any
    table, when there is none. *)
Definition connect_db (file : option store) : store :=
  match file with
  | Some s => s
  | None => empty_store
  end.

(** Choice 1 of the menu. *)
Definition menu_add_sale : IO unit :=
  print "新增銷售紀錄" ;;;
  sdate <~ input "請輸入銷售日期 (YYYY-MM-DD)：" ;;
  mid <~ input "請輸入會員編號：" ;;
  bid <~ input "請輸入書籍編號：" ;;
  sqty <~ input_int "請輸入購買數量：" ;;
  sdiscount <~ input_int "請輸入折扣金額：" ;;
  r <~ lift (add_sale sdate mid bid sqty sdiscount) ;;
  print r.2.

(** The [match choice] of the loop; the result tells whether the loop goes
    on ([break] is [false]). *)
Definition dispatch (choice : string) : IO bool :=
  if decide (choice = "1") then menu_add_sale ;;; io_ret true
  else if decide (choice = "2") then print_sale_report ;;; io_ret true
  else if decide (choice = "3") then update_sale_io ;;; io_ret true
  else if decide (choice = "4") then delete_sale_io ;;; io_ret true
  else if decide (choice = "5") then print "謝謝使用，再見！" ;;; io_ret false
  else print "無效的選項，請重新選擇。" ;;; io_ret true.

(** One round of the [while True] loop. *)
Definition menu_round : IO bool :=
  print "請選擇操作項目(Enter 離開)：" ;;;
  choice <~ read_line ;;
  dispatch choice.

(** The loop, for at most [rounds] rounds; [None] when they do not
    suffice. *)
Fixpoint main_loop (rounds : nat) (w : world) : option (result unit * world) :=
  match rounds with
  | O => None
  | S rounds =>
      match menu_round w with
      | (Done true, w') => main_loop rounds w'
      | (Done false, w') => Some (Done (), w')
      | (Crash c, w') => Some (Crash c, w')
      end
  end.

Definition print_menu : IO unit :=
  print (str_times "*" 15 +:+ "選單" +:+ str_times "*" 15) ;;;
  print "1. 新增銷售紀錄" ;;;
  print "2. 顯示銷售報表" ;;;
  print "3. 更新銷售紀錄" ;;;
  print "4. 刪除銷售紀錄" ;;;
  print "5. 離開".

(** [main], started on the database file [file] with the user typing
    [lines].  Every round reads at least one line, so one round more than
    there are lines is enough. *)
Definition main (file : option store) (lines : list string)
  : option (result unit * world) :=
  match initialize_db (connect_db file) with
  | (Exc e, d) => Some (Crash (Uncaught e), World d lines [])
  | (Val _, d) =>
      match print_menu (World d lines []) with
      | (Done _, w) => main_loop (S (length lines)) w
      | (Crash c, w) => Some (Crash c, w)
      end
  end.

End terminal.

(** A reading of plain decimal numerals, with an optional minus sign: a
    part of what [int] accepts, to run the terminal functions on examples. *)
Fixpoint digits_value (acc : Z) (s : string) : option Z :=
  match s with
  | EmptyString => Some acc
  | String a s =>
      let n := Z.of_N (N_of_ascii a) - 48 in
      if (0 <=? n) && (n <=? 9) then digits_value (10 * acc + n) s else None
  end.

Definition int_decimal (s : string) : option Z :=
  match s with
  | EmptyString => None
  | String "-" EmptyString => None
  | String "-" s => Z.opp <$> digits_value 0 s
  | _ => digits_value 0 s
  end.

(** ** Vocabulary for the terminal *)

(** What [print_listing] writes. *)
Definition listing_text (sales : list (Z * string * string)) : list output :=
  Print "======== 銷售記錄列表 ========" ::
  (Print <$> ((λ '(idx, row), listing_line idx row) <$> enumerate 1 sales)) ++
  [Print "================================"].

(** What [print_sale_report] writes for the rows it has selected. *)
Definition report_text (rows : list report_row) : list output :=
  match rows with
  | [] => [Print "⚠️ 沒有銷售紀錄。"]
  | _ =>
      Print (str_times "=" 25 +:+ " 銷售報表 " +:+ str_times "=" 25) ::
      (Print <$> mjoin ((λ '(idx, row), report_block idx row)
                          <$> enumerate 1 rows))
  end.

(** From [w] to [w'] the store has gone through operations of the engine
    only, and the input still to come is what is left of the old one. *)
Definition session_step (w w' : world) : Prop :=
  steps (conn w) (conn w') ∧ stdin w' `suffix_of` stdin w.

(** The choices of the menu that do something. *)
Definition menu_choices : list string := ["1"; "2"; "3"; "4"; "5"].

(** A database file the program can find at start: none yet, or the file an
    earlier session has left, in a state reachable from the seeded store. *)
Definition session_file (file : option store) : Prop :=
  file = None ∨ ∃ d, reachable d ∧ file = Some (store_of d).

(** Every row of [d] is still there, unchanged, in [d']. *)
Definition keeps_rows (d d' : db) : Prop :=
  member d ⊆ member d' ∧ book d ⊆ book d' ∧ sale d ⊆ sale d'.

(** A computation that, whether it returns or raises, has removed and
    changed no row. *)
Definition only_adds {A} (m : M A) : Prop :=
  ∀ d, keeps_rows d (m d).2.

Local Close Scope io_scope.

(** Closed decidable facts about the seed data are settled by evaluation. *)
Ltac by_evaluation := apply (bool_decide_unpack _); vm_compute; exact I.

(** What remains of the input is a suffix of what there was. *)
Ltac suffix_tac :=
  simpl; repeat first [done | reflexivity | apply suffix_cons_r].

(** ** The store: row identifiers *)

Section rowid.
Implicit Types (rows : gmap Z sale_row) (d : db).



Lemma max_rowid_ub rows sid r : rows !! sid = Some r → sid ≤ max_rowid rows.
Proof.
  unfold max_rowid. revert sid r.
  apply (map_fold_weak_ind
           (λ acc m, ∀ sid r, m !! sid = Some r → sid ≤ acc)).
  - intros sid r. by rewrite lookup_empty.
  - intros i x m acc _ IH sid r.
    destruct (decide (i = sid)) as [-> | Hne].
    + lia.
    + rewrite lookup_insert_ne by done. intros H%IH. lia.
Qed.

Lemma next_sid_Some d sid :
  next_sid d = Some sid →
  sid = Z.max (max_rowid (sale d)) (sale_seq d) + 1 ∧ sid ≤ SQLITE_INT_MAX.
Proof.
  unfold next_sid, last_sid. case_match eqn:Hlt; [| done].
  apply Z.ltb_lt in Hlt. intros [= <-]. lia.
Qed.

Lemma next_sid_fresh d sid : next_sid d = Some sid → sale d !! sid = None.
Proof.
  intros [-> _]%next_sid_Some.
  destruct (sale d !! _) as [r |] eqn:Hr; [| done].
  apply max_rowid_ub in Hr. lia.
Qed.

Lemma next_sid_above_seq d sid : next_sid d = Some sid → sale_seq d < sid.
Proof. intros [-> _]%next_sid_Some. lia. Qed.

End rowid.

(** ** [add_sale]: what a call can do *)

Lemma clamp_is_max z : (if z <? 0 then 0 else z) = Z.max z 0.
Proof. case_match eqn:H; [apply Z.ltb_lt in H | apply Z.ltb_ge in H]; lia. Qed.

(** The tail of [add_sale], once every check has passed. *)
Lemma add_sale_checked d sdate mid bid q disc b :
  date_shape sdate → 0 < q → 0 ≤ disc →
  is_Some (member d !! mid) → book d !! bid = Some b → q ≤ bstock b →
  let r := SaleRow sdate mid bid q disc (price_total (bprice b) q disc) in
  add_sale sdate mid bid q disc d =
    if fits_int64 q && fits_int64 disc && fits_int64 (stotal r)
    then match next_sid d with
         | Some sid => (Val (true, msg_added (stotal r)), sold d sid r)
         | None => (Exc OperationalError, d)
         end
    else (Exc OverflowError, d).
Proof.
  intros [Hlen Hcnt] Hq Hdisc [m Hm] Hb Hstock r.
  unfold add_sale. rewrite Hlen, Hcnt. cbn [Nat.eqb negb orb].
  replace (q <=? 0) with false by (symmetry; apply Z.leb_gt; lia).
  replace (disc <? 0) with false by (symmetry; apply Z.ltb_ge; lia).
  cbn [orb]. unfold bind at 1, select_member. rewrite Hm.
  unfold bind at 1, select_book. rewrite Hb.
  replace (q >? bstock b) with false
    by (rewrite Z.gtb_ltb; symmetry; apply Z.ltb_ge; lia).
  rewrite clamp_is_max. fold (price_total (bprice b) q disc).
  unfold except_IntegrityError, bind, insert_sale, update_book_stock, commit, ret.
  cbn [sqty sdiscount stotal]. subst r; cbn [stotal].
  destruct (fits_int64 q) eqn:Fq; cbn [andb]; [| done].
  destruct (fits_int64 disc); cbn [andb]; [| done].
  destruct (fits_int64 (price_total _ _ _)); [| done].
  by destruct (next_sid d).
Qed.

(** *** The five checks, each with the earlier ones passed *)

Section add_sale_checks.
Variables (d : db) (sdate mid bid : string) (q disc : Z).

Lemma add_sale_bad_date :
  ¬ date_shape sdate →
  add_sale sdate mid bid q disc d = (Val (false, msg_date_format), d).
Proof.
  intros Hbad. unfold add_sale.
  destruct (len sdate =? 10)%nat eqn:Hlen; [| done].
  destruct (count_char "-" sdate =? 2)%nat eqn:Hcnt; [| done].
  destruct Hbad. split; by apply Nat.eqb_eq.
Qed.

Lemma add_sale_bad_bounds :
  date_shape sdate → ¬ (0 < q ∧ 0 ≤ disc) →
  add_sale sdate mid bid q disc d = (Val (false, msg_bounds), d).
Proof.
  intros [Hlen Hcnt] Hbad. unfold add_sale. rewrite Hlen, Hcnt.
  cbn [Nat.eqb negb orb].
  destruct (q <=? 0) eqn:Hq; [done |].
  destruct (disc <? 0) eqn:Hdisc; [done |].
  apply Z.leb_gt in Hq. apply Z.ltb_ge in Hdisc. tauto.
Qed.

Lemma add_sale_no_member :
  date_shape sdate → 0 < q → 0 ≤ disc → member d !! mid = None →
  add_sale sdate mid bid q disc d = (Val (false, msg_no_member mid), d).
Proof.
  intros [Hlen Hcnt] Hq Hdisc Hm. unfold add_sale. rewrite Hlen, Hcnt.
  cbn [Nat.eqb negb orb].
  replace (q <=? 0) with false by (symmetry; apply Z.leb_gt; lia).
  replace (disc <? 0) with false by (symmetry; apply Z.ltb_ge; lia).
  cbn [orb]. unfold bind, select_member. by rewrite Hm.
Qed.

Lemma add_sale_no_book :
  date_shape sdate → 0 < q → 0 ≤ disc → is_Some (member d !! mid) →
  book d !! bid = None →
  add_sale sdate mid bid q disc d = (Val (false, msg_no_book bid), d).
Proof.
  intros [Hlen Hcnt] Hq Hdisc [m Hm] Hb. unfold add_sale. rewrite Hlen, Hcnt.
  cbn [Nat.eqb negb orb].
  replace (q <=? 0) with false by (symmetry; apply Z.leb_gt; lia).
  replace (disc <? 0) with false by (symmetry; apply Z.ltb_ge; lia).
  cbn [orb]. unfold bind at 1, select_member. rewrite Hm.
  unfold bind, select_book. by rewrite Hb.
Qed.

Lemma add_sale_no_stock b :
  date_shape sdate → 0 < q → 0 ≤ disc → is_Some (member d !! mid) →
  book d !! bid = Some b → bstock b < q →
  add_sale sdate mid bid q disc d = (Val (false, msg_no_stock (bstock b)), d).
Proof.
  intros [Hlen Hcnt] Hq Hdisc [m Hm] Hb Hstock. unfold add_sale.
  rewrite Hlen, Hcnt. cbn [Nat.eqb negb orb].
  replace (q <=? 0) with false by (symmetry; apply Z.leb_gt; lia).
  replace (disc <? 0) with false by (symmetry; apply Z.ltb_ge; lia).
  cbn [orb]. unfold bind at 1, select_member. rewrite Hm.
  unfold bind, select_book. rewrite Hb.
  by replace (q >? bstock b) with true
    by (rewrite Z.gtb_ltb; symmetry; apply Z.ltb_lt; lia).
Qed.

(** A call either leaves the store as it was or records one sale. *)
Lemma add_sale_cases :
  (add_sale sdate mid bid q disc d).2 = d ∨
  ∃ b sid,
    book d !! bid = Some b ∧ 0 < q ≤ bstock b ∧ next_sid d = Some sid ∧
    (add_sale sdate mid bid q disc d).2 =
      sold d sid
        (SaleRow sdate mid bid q disc (price_total (bprice b) q disc)).
Proof.
  destruct (decide (date_shape sdate)) as [Hdate |];
    [| left; by rewrite add_sale_bad_date].
  destruct (decide (0 < q ∧ 0 ≤ disc)) as [[Hq Hdisc] |];
    [| left; by rewrite add_sale_bad_bounds].
  destruct (member d !! mid) as [m |] eqn:Hm;
    [| left; by rewrite add_sale_no_member].
  destruct (book d !! bid) as [b |] eqn:Hb;
    [| left; by rewrite add_sale_no_book].
  destruct (decide (q ≤ bstock b)) as [Hstock |];
    [| left; rewrite (add_sale_no_stock b); [done ..| lia]].
  rewrite (add_sale_checked d sdate mid bid q disc b) by done.
  cbn [stotal].
  destruct (_ && _); [| by left].
  destruct (next_sid d) as [sid |] eqn:Hsid; [| by left].
  right. exists b, sid. by repeat split.
Qed.
End add_sale_checks.

(** ** The listing the user chooses from *)

Lemma joined_row_sid d sid row : joined_row d sid = Some row → row.1.1 = sid.
Proof.
  unfold joined_row. destruct (sale d !! sid) as [r |]; [| done]. simpl.
  destruct (member d !! mid r); [| done]. by intros [= <-].
Qed.

Lemma nth_sid_length sales k sid :
  1 ≤ k → nth_sid sales k = Some sid → k ≤ Z.of_nat (length sales).
Proof.
  unfold nth_sid. intros Hk H.
  destruct (sales !! Z.to_nat (k - 1)) as [row |] eqn:Hrow; [| done].
  apply lookup_lt_Some in Hrow. lia.
Qed.

(** Whatever the user picks from the listing is a row of [sale] whose member
    exists. *)
Lemma nth_sid_listed d k sid :
  nth_sid (sales_listing d) k = Some sid →
  ∃ r, sale d !! sid = Some r ∧ is_Some (member d !! mid r).
Proof.
  unfold nth_sid. intros H.
  destruct (sales_listing d !! Z.to_nat (k - 1)) as [row |] eqn:Hrow; [| done].
  injection H as <-.
  apply list_elem_of_lookup_2, list_elem_of_omap in Hrow as (sid & _ & Hj).
  rewrite (joined_row_sid _ _ _ Hj). revert Hj. unfold joined_row.
  destruct (sale d !! sid) as [r |]; [| done]. simpl.
  destruct (member d !! mid r) eqn:Hm; [| done]. eauto.
Qed.

(** Every sale of an existing member is on the listing. *)
Lemma listed_selectable d sid r :
  sale d !! sid = Some r → is_Some (member d !! mid r) →
  ∃ k, 1 ≤ k ∧ nth_sid (sales_listing d) k = Some sid.
Proof.
  intros Hr [m Hm].
  assert (sid ∈ sorted_sids (sale d)) as Hin.
  { unfold sorted_sids. rewrite merge_sort_Permutation.
    apply list_elem_of_fmap. exists (sid, r). split; [done |].
    by apply elem_of_map_to_list. }
  assert ((sid, sdate r, mname m) ∈ sales_listing d) as Hrow.
  { apply list_elem_of_omap. exists sid. split; [done |].
    unfold joined_row. rewrite Hr. simpl. by rewrite Hm. }
  apply list_elem_of_lookup_1 in Hrow as [i Hi].
  exists (Z.of_nat i + 1). split; [lia |].
  unfold nth_sid. replace (Z.to_nat (Z.of_nat i + 1 - 1)) with i by lia.
  by rewrite Hi.
Qed.

Lemma bind_select_sales {A} (k : list (Z * string * string) → M A) d :
  bind select_sales k d = k (sales_listing d) d.
Proof. reflexivity. Qed.

(** ** [update_sale]: what a call can do *)

Lemma apply_discount_found d sid nd r b :
  sale d !! sid = Some r → book d !! bid r = Some b →
  let total := price_total (bprice b) (sqty r) nd in
  apply_discount sid nd d =
    if fits_int64 nd && fits_int64 total
    then (Val (Updated sid total), discounted d sid nd total)
    else (Exc OverflowError, d).
Proof.
  intros Hr Hb total. unfold apply_discount, bind at 1, select_qty_price.
  rewrite Hr. simpl. rewrite Hb. simpl.
  unfold bind, update_sale_discount, commit, ret.
  fold (price_total (bprice b) (sqty r) nd). fold total.
  by destruct (_ && _).
Qed.

Lemma apply_discount_cases d sid nd :
  (apply_discount sid nd d).2 = d ∨
  ∃ total, (apply_discount sid nd d).2 = discounted d sid nd total.
Proof.
  destruct (sale d !! sid) as [r |] eqn:Hr.
  - destruct (book d !! bid r) as [b |] eqn:Hb.
    + rewrite (apply_discount_found d sid nd r b) by done.
      destruct (_ && _); [right; eauto | by left].
    + left. unfold apply_discount, bind, select_qty_price.
      rewrite Hr. simpl. by rewrite Hb.
  - left. unfold apply_discount, bind, select_qty_price. by rewrite Hr.
Qed.

(** The user picks entry [k] of the listing, then types the discount. *)
Lemma update_sale_chosen d k sid nd rest :
  1 ≤ k → nth_sid (sales_listing d) k = Some sid → 0 ≤ nd →
  update_sale (Num k :: Num nd :: rest) d = apply_discount sid nd d.
Proof.
  intros Hk Hsid Hnd. pose proof (nth_sid_length _ _ _ Hk Hsid) as Hlen.
  unfold update_sale. rewrite bind_select_sales.
  destruct (sales_listing d) as [| row sales] eqn:Hl; [done |].
  replace (k <? 1) with false by (symmetry; apply Z.ltb_ge; lia).
  replace (k >? _) with false
    by (rewrite Z.gtb_ltb; symmetry; apply Z.ltb_ge; lia).
  cbn [orb]. rewrite Hsid.
  by replace (nd <? 0) with false by (symmetry; apply Z.ltb_ge; lia).
Qed.

Lemma update_sale_cases stdin d :
  (update_sale stdin d).2 = d ∨
  ∃ sid nd total, (update_sale stdin d).2 = discounted d sid nd total.
Proof.
  unfold update_sale. rewrite bind_select_sales.
  destruct (sales_listing d) as [| row sales]; [by left |].
  destruct stdin as [| [| | k] stdin]; [by left .. |].
  destruct (_ || _); [by left |].
  destruct (nth_sid _ k) as [sid |]; [| by left].
  destruct stdin as [| [| | nd] stdin]; [by left .. |].
  destruct (nd <? 0); [by left |].
  destruct (apply_discount_cases d sid nd) as [H | [total H]].
  - by left.
  - right. by exists sid, nd, total.
Qed.

(** ** [delete_sale]: what a call can do *)

Lemma read_choice_retry n refused stdin :
  Forall (asked_again n) refused →
  read_choice n (refused ++ stdin) = read_choice n stdin.
Proof.
  induction 1 as [| l refused Hl _ IH]; [done |].
  destruct l as [| | choice]; simpl in *; [done | done |].
  replace ((choice <? 1) || (choice >? Z.of_nat n)) with true; [done |].
  symmetry. apply orb_true_iff. rewrite Z.gtb_ltb, !Z.ltb_lt. lia.
Qed.

Lemma read_choice_accept n k stdin :
  1 ≤ k ≤ Z.of_nat n → read_choice n (Num k :: stdin) = Val (Some k).
Proof.
  intros Hk. simpl.
  replace (k <? 1) with false by (symmetry; apply Z.ltb_ge; lia).
  by replace (k >? Z.of_nat n) with false
    by (rewrite Z.gtb_ltb; symmetry; apply Z.ltb_ge; lia).
Qed.

(** The user picks entry [k] of the listing, possibly after some refused
    attempts. *)
Lemma delete_sale_chosen d refused k sid rest :
  Forall (asked_again (length (sales_listing d))) refused →
  1 ≤ k → nth_sid (sales_listing d) k = Some sid →
  delete_sale (refused ++ Num k :: rest) d = (Val (Deleted sid), removed d sid).
Proof.
  intros Hrefused Hk Hsid.
  pose proof (nth_sid_length _ _ _ Hk Hsid) as Hlen.
  unfold delete_sale. rewrite bind_select_sales.
  rewrite read_choice_retry, read_choice_accept by done.
  destruct (sales_listing d) as [| row sales] eqn:Hl; [done |].
  by rewrite Hsid.
Qed.

Lemma delete_sale_cases stdin d :
  (delete_sale stdin d).2 = d ∨ ∃ sid, (delete_sale stdin d).2 = removed d sid.
Proof.
  unfold delete_sale. rewrite bind_select_sales.
  destruct (sales_listing d) as [| row sales]; [by left |].
  destruct (read_choice _ stdin) as [[k |] | e]; [| by left ..].
  destruct (nth_sid _ k) as [sid |]; [| by left].
  right. by exists sid.
Qed.

(** ** Invariants of the three operations *)

Lemma run_op_cases o d :
  run_op o d = d ∨
  (∃ sid r b, book d !! bid r = Some b ∧ 0 < sqty r ≤ bstock b ∧
              next_sid d = Some sid ∧ run_op o d = sold d sid r) ∨
  (∃ sid nd total, run_op o d = discounted d sid nd total) ∨
  (∃ sid, run_op o d = removed d sid).
Proof.
  destruct o as [sdate mid bid q disc | stdin | stdin]; simpl.
  - destruct (add_sale_cases d sdate mid bid q disc)
      as [H | (b & sid & Hb & Hq & Hsid & H)]; [by left |].
    right; left.
    exists sid, (SaleRow sdate mid bid q disc (price_total (bprice b) q disc)), b.
    simpl. rewrite H. repeat split; (done || lia).
  - destruct (update_sale_cases stdin d) as [H | H]; [by left |].
    right; right; left; exact H.
  - destruct (delete_sale_cases stdin d) as [H | H]; [by left |].
    right; right; right; exact H.
Qed.

Lemma stock_nonneg_run_op o d : stock_nonneg d → stock_nonneg (run_op o d).
Proof.
  intros Hd.
  destruct (run_op_cases o d)
    as [-> | [(sid & r & b & Hb & Hq & _ & ->) | [(? & ? & ? & ->) | [? ->]]]];
    [done | | done ..].
  intros bid' b'. simpl. rewrite lookup_alter.
  case_decide as Heq; [| by apply Hd]. subst bid'. rewrite Hb. simpl.
  intros [= <-]. simpl. lia.
Qed.

Lemma sale_seq_run_op o d : sale_seq d ≤ sale_seq (run_op o d).
Proof.
  destruct (run_op_cases o d)
    as [-> | [(sid & r & b & _ & _ & Hsid & ->) | [(? & ? & ? & ->) | [? ->]]]];
    [done | | done ..].
  apply next_sid_above_seq in Hsid. simpl. lia.
Qed.

Lemma seq_covers_run_op o d : seq_covers d → seq_covers (run_op o d).
Proof.
  intros Hd.
  destruct (run_op_cases o d)
    as [-> | [(sid & r & b & _ & _ & Hsid & ->)
             | [(sid & nd & total & ->) | [sid ->]]]];
    [done | | |]; intros sid' r'; simpl.
  - rewrite lookup_insert. case_decide as Heq; [intros _; lia |].
    intros H%Hd. apply next_sid_above_seq in Hsid. lia.
  - rewrite lookup_alter. case_decide as Heq; [| by apply Hd]. subst sid'.
    destruct (sale d !! sid) as [r0 |] eqn:Hr0; [| done]. intros _.
    by apply (Hd sid r0).
  - rewrite lookup_delete. case_decide; [done | by apply Hd].
Qed.

(** A row that an operation adds gets an identifier above the counter. *)
Lemma new_row_above_seq o d sid :
  sale d !! sid = None → is_Some (sale (run_op o d) !! sid) →
  sale_seq d < sid.
Proof.
  intros Hnone.
  destruct (run_op_cases o d)
    as [-> | [(sid' & r & b & _ & _ & Hsid & ->)
             | [(sid' & nd & total & ->) | [sid' ->]]]]; simpl.
  - rewrite Hnone. by intros [? ?].
  - rewrite lookup_insert. case_decide as Heq.
    + subst sid'. intros _. by apply next_sid_above_seq.
    + rewrite Hnone. by intros [? ?].
  - rewrite lookup_alter. case_decide; simplify_eq; rewrite Hnone; simpl;
      by intros [? ?].
  - rewrite lookup_delete. case_decide; simplify_eq; rewrite ?Hnone;
      by intros [? ?].
Qed.

Lemma steps_stock_nonneg d d' : steps d d' → stock_nonneg d → stock_nonneg d'.
Proof. induction 1; auto using stock_nonneg_run_op. Qed.

Lemma steps_seq_covers d d' : steps d d' → seq_covers d → seq_covers d'.
Proof. induction 1; auto using seq_covers_run_op. Qed.

Lemma steps_sale_seq d d' : steps d d' → sale_seq d ≤ sale_seq d'.
Proof.
  induction 1 as [| d' o _ IH]; [done |].
  pose proof (sale_seq_run_op o d'). lia.
Qed.

Lemma seeded_stock_nonneg : stock_nonneg seeded_db.
Proof.
  change (map_Forall (λ _ b, 0 ≤ bstock b) (book seeded_db)). by_evaluation.
Qed.

Lemma seeded_seq_covers : seq_covers seeded_db.
Proof.
  change (map_Forall (λ sid _, sid ≤ sale_seq seeded_db) (sale seeded_db)).
  by_evaluation.
Qed.

(** ** [initialize_db]: what a run can do *)

(** The member table has rows: nothing is inserted anywhere. *)
Lemma initialize_db_gate_closed s :
  member (create_tables s) ≠ ∅ →
  initialize_db s = (Val (), create_tables s).
Proof.
  intros Hne. unfold initialize_db, bind at 1, count_member.
  destruct (size (member (create_tables s))) as [| n] eqn:Hsize.
  - by apply map_size_empty_inv in Hsize.
  - reflexivity.
Qed.

(** The member table is empty: the seed script runs. *)
Lemma initialize_db_gate_open s :
  member (create_tables s) = ∅ →
  initialize_db s = (seed_script ;;; commit) (create_tables s).
Proof.
  intros Hempty. unfold initialize_db, bind at 1, count_member.
  by rewrite Hempty, map_size_empty.
Qed.

Lemma bind_Val {A B} (m : M A) (k : A → M B) d a d' :
  m d = (Val a, d') → bind m k d = k a d'.
Proof. unfold bind. by intros ->. Qed.

Lemma script_insert_member rows d :
  NoDup rows.*1 → (∀ k, k ∈ rows.*1 → member d !! k = None) →
  script ((λ '(k, r), insert_member k r) <$> rows) d =
    (Val (), Db (with_rows rows (member d)) (book d) (sale d) (sale_seq d)).
Proof.
  revert d. induction rows as [| [k r] rows IH]; intros d Hnd Hfresh.
  - by destruct d.
  - apply NoDup_cons in Hnd as [Hk Hnd]. cbn [fmap list_fmap script].
    rewrite (bind_Val _ _ d ()
               (Db (<[k := r]> (member d)) (book d) (sale d) (sale_seq d))).
    + rewrite IH; [done | done |]. simpl. intros k' Hk'.
      rewrite lookup_insert_ne; [apply Hfresh; cbn; by constructor |].
      by intros ->.
    + unfold insert_member. rewrite Hfresh; [done | cbn; by constructor].
Qed.











(** *** A second run *)

Lemma keeps_member_ret {A} (a : A) : keeps_member (ret a).
Proof. by intros d. Qed.

Lemma keeps_member_bind {A B} (m : M A) (k : A → M B) :
  keeps_member m → (∀ a, keeps_member (k a)) → keeps_member (bind m k).
Proof.
  intros Hm Hk d. unfold bind. specialize (Hm d).
  destruct (m d) as [[a | e] d']; simpl in *; [| done].
  by rewrite Hk.
Qed.

Lemma keeps_member_insert_book k r : keeps_member (insert_book k r).
Proof. intros d. unfold insert_book. by destruct (book d !! k). Qed.

Lemma keeps_member_insert_sale r : keeps_member (insert_sale r).
Proof.
  intros d. unfold insert_sale.
  destruct (_ && _); [| done]. by destruct (next_sid d).
Qed.

Lemma keeps_member_script stmts :
  Forall keeps_member stmts → keeps_member (script stmts).
Proof.
  induction 1 as [| stmt stmts Hstmt _ IH]; simpl.
  - apply keeps_member_ret.
  - by apply keeps_member_bind.
Qed.

(** On an empty [member] table the seed script always gets its three
    members in, whatever happens to the books and sales after them. *)
Lemma seed_script_member d :
  member d = ∅ → member (seed_script d).2 = with_rows seed_members ∅.
Proof.
  intros Hm. unfold seed_script.
  rewrite (bind_Val _ _ _ _ _ (script_insert_member seed_members d
             ltac:(by_evaluation)
             ltac:(intros k _; rewrite Hm; apply lookup_empty))).
  rewrite keeps_member_bind.
  - simpl. by rewrite Hm.
  - apply keeps_member_script. unfold seed_books.
    repeat (apply Forall_cons; split; [apply keeps_member_insert_book |]).
    apply Forall_nil_2.
  - intros _. apply keeps_member_script. unfold seed_sales.
    repeat (apply Forall_cons; split; [apply keeps_member_insert_sale |]).
    apply Forall_nil_2.
Qed.

Lemma create_tables_store_of d : create_tables (store_of d) = d.
Proof. by destruct d. Qed.

(** Whatever store the initializer is run on and however that run ends, a
    second run finds every table and changes nothing. *)
Lemma initialize_db_twice s :
  let d := (initialize_db s).2 in
  missing_tables (store_of d) = [] ∧
  initialize_db (store_of d) = (Val (), d).
Proof.
  intros d. split; [done |].
  rewrite <- (create_tables_store_of d) at 2.
  apply initialize_db_gate_closed. rewrite create_tables_store_of. subst d.
  destruct (decide (member (create_tables s) = ∅)) as [Hm | Hm].
  - rewrite initialize_db_gate_open by done. unfold bind at 1.
    pose proof (seed_script_member _ Hm) as Hseed.
    destruct (seed_script (create_tables s)) as [[[] | e] d']; simpl in *;
      rewrite Hseed; by vm_compute.
  - by rewrite initialize_db_gate_closed.
Qed.

(** * The claims of the specification *)

(** ** Creating a sale *)

(** C1, as the specification states it, fails: a call can pass all five
    checks and still not succeed.  On the seeded store, selling 2 copies of
    B001 to M001 with a discount of 2^63 passes every check, but the
    discount cannot be bound to the INSERT: the call raises [OverflowError]
    and writes nothing. *)
Lemma create_sale_overflow_counterexample :
  date_shape "2024-02-01" ∧ 0 < 2 ∧ 0 ≤ 2 ^ 63 ∧
  is_Some (member seeded_db !! "M001") ∧
  (∃ b, book seeded_db !! "B001" = Some b ∧ 2 ≤ bstock b) ∧
  add_sale "2024-02-01" "M001" "B001" 2 (2 ^ 63) seeded_db
    = (Exc OverflowError, seeded_db).
Proof.
  split; [split; reflexivity |]. split; [lia |]. split; [lia |].
  split; [vm_compute; by eexists |]. split; [| by vm_compute].
  exists (BookRow "Python Programming" 600 50). split; [by vm_compute |].
  simpl. lia.
Qed.

(** C1 (amended): a call that passes all five checks, on a store whose
    stock value is an SQLite INTEGER, with a discount and a total that fit
    in a signed 64-bit integer and a sale identifier still available,
    succeeds; the book's stock afterwards is its stock before minus the
    quantity, and [sale] has one new row, under a fresh identifier, whose
    total is [max(price * quantity - discount, 0)]. *)
Theorem create_sale_valid d sdate mid bid q disc b sid :
  date_shape sdate → 0 < q → 0 ≤ disc →
  is_Some (member d !! mid) → book d !! bid = Some b → q ≤ bstock b →
  fits_int64 (bstock b) = true → fits_int64 disc = true →
  fits_int64 (price_total (bprice b) q disc) = true →
  next_sid d = Some sid →
  let total := price_total (bprice b) q disc in
  let res := add_sale sdate mid bid q disc d in
  res.1 = Val (true, msg_added total) ∧
  (∃ b', book res.2 !! bid = Some b' ∧ bstock b' = bstock b - q) ∧
  sale d !! sid = None ∧
  sale res.2 = <[sid := SaleRow sdate mid bid q disc total]> (sale d).
Proof.
  intros Hdate Hq Hdisc Hm Hb Hstock Fstock Fdisc Ftotal Hsid total res.
  assert (fits_int64 q = true) as Fq.
  { unfold fits_int64, SQLITE_INT_MIN, SQLITE_INT_MAX in *.
    apply andb_true_iff in Fstock as [_ Hmax%Z.leb_le].
    apply andb_true_iff. rewrite Z.leb_le, Z.leb_le. lia. }
  subst res.
  rewrite (add_sale_checked d sdate mid bid q disc b) by done.
  cbn [stotal]. rewrite Fq, Fdisc, Ftotal, Hsid. cbn [andb fst snd].
  split; [done |]. split; [| split; [by apply next_sid_fresh | done]].
  exists (decrement_stock q b). unfold sold. simpl.
  by rewrite lookup_alter_eq, Hb.
Qed.

(** The example of the specification: seed book B001 has price 600 and
    stock 50; selling 2 copies with a discount of 100 gives a total of 1100
    and leaves a stock of 48. *)
Lemma create_sale_valid_witness :
  let res := add_sale "2024-02-01" "M001" "B001" 2 100 seeded_db in
  res.1 = Val (true, msg_added 1100) ∧
  (∃ b', book res.2 !! "B001" = Some b' ∧ bstock b' = 50 - 2) ∧
  sale seeded_db !! 5 = None ∧
  sale res.2 =
    <[5 := SaleRow "2024-02-01" "M001" "B001" 2 100 1100]> (sale seeded_db).
Proof.
  apply (create_sale_valid seeded_db "2024-02-01" "M001" "B001" 2 100
           (BookRow "Python Programming" 600 50) 5).
  - split; reflexivity.
  - lia.
  - lia.
  - vm_compute. eexists. reflexivity.
  - vm_compute. reflexivity.
  - simpl. lia.
  - reflexivity.
  - reflexivity.
  - reflexivity.
  - vm_compute. reflexivity.
Defined.

(** The other two conditions of the amended C1 are needed as well: a total
    beyond 64 bits cannot be bound, and a table that has used the largest
    identifier takes no more rows. *)
Example create_sale_total_overflow :
  let d := Db (member seeded_db) {[ "B9" := BookRow "Atlas" (2 ^ 62) 4 ]} ∅ 0 in
  add_sale "2024-02-01" "M001" "B9" 4 0 d = (Exc OverflowError, d).
Proof. by vm_compute. Qed.

Example create_sale_ids_exhausted :
  let d := Db (member seeded_db) (book seeded_db) ∅ SQLITE_INT_MAX in
  add_sale "2024-02-01" "M001" "B001" 2 100 d = (Exc OperationalError, d).
Proof. by vm_compute. Qed.

(** The date is measured as [len] measures it, in characters.  A date of
    ten characters passes the check and is stored as typed, also when one
    of them is a full-width digit of three bytes; nine characters do not
    pass, also when they take ten bytes. *)
Example add_sale_date_in_characters :
  date_shape "２024-02-01" ∧ ¬ date_shape "24-02-01é" ∧
  add_sale "２024-02-01" "M001" "B001" 2 100 seeded_db
    = (Val (true, msg_added 1100),
       sold seeded_db 5 (SaleRow "２024-02-01" "M001" "B001" 2 100 1100)) ∧
  add_sale "24-02-01é" "M001" "B001" 2 100 seeded_db
    = (Val (false, msg_date_format), seeded_db).
Proof.
  split; [split; reflexivity |].
  split; [intros [Hlen _]; discriminate Hlen |].
  split; by vm_compute.
Qed.

(** C2: the checks of [add_sale] run in the order date shape, bounds of
    quantity and discount, member, book, stock.  The first check that fails
    decides the message, whatever the later ones would have said, and the
    store that comes back is the store that went in. *)
Theorem add_sale_validation_order d sdate mid bid q disc :
  (¬ date_shape sdate →
   add_sale sdate mid bid q disc d = (Val (false, msg_date_format), d)) ∧
  (date_shape sdate → ¬ (0 < q ∧ 0 ≤ disc) →
   add_sale sdate mid bid q disc d = (Val (false, msg_bounds), d)) ∧
  (date_shape sdate → 0 < q → 0 ≤ disc → member d !! mid = None →
   add_sale sdate mid bid q disc d = (Val (false, msg_no_member mid), d)) ∧
  (date_shape sdate → 0 < q → 0 ≤ disc → is_Some (member d !! mid) →
   book d !! bid = None →
   add_sale sdate mid bid q disc d = (Val (false, msg_no_book bid), d)) ∧
  (∀ b, date_shape sdate → 0 < q → 0 ≤ disc → is_Some (member d !! mid) →
   book d !! bid = Some b → bstock b < q →
   add_sale sdate mid bid q disc d
     = (Val (false, msg_no_stock (bstock b)), d)).
Proof.
  repeat split.
  - apply add_sale_bad_date.
  - apply add_sale_bad_bounds.
  - apply add_sale_no_member.
  - apply add_sale_no_book.
  - intros b. apply add_sale_no_stock.
Qed.

(** One call per check on the seeded store; in each, every later check
    would fail as well (unknown member M9, unknown book B9). *)
Lemma add_sale_validation_order_witness :
  add_sale "2024/02/01" "M9" "B9" 0 (-1) seeded_db
    = (Val (false, msg_date_format), seeded_db) ∧
  add_sale "2024-02-01" "M9" "B9" 0 (-1) seeded_db
    = (Val (false, msg_bounds), seeded_db) ∧
  add_sale "2024-02-01" "M9" "B9" 1 0 seeded_db
    = (Val (false, msg_no_member "M9"), seeded_db) ∧
  add_sale "2024-02-01" "M001" "B9" 1 0 seeded_db
    = (Val (false, msg_no_book "B9"), seeded_db) ∧
  add_sale "2024-02-01" "M001" "B003" 21 0 seeded_db
    = (Val (false, msg_no_stock 20), seeded_db).
Proof.
  split; [| split; [| split; [| split]]].
  - apply (proj1 (add_sale_validation_order seeded_db "2024/02/01" "M9" "B9"
                    0 (-1))).
    vm_compute. intros [_ H]. discriminate H.
  - apply (proj1 (proj2 (add_sale_validation_order seeded_db "2024-02-01"
                           "M9" "B9" 0 (-1)))).
    + split; reflexivity.
    + lia.
  - apply (proj1 (proj2 (proj2 (add_sale_validation_order seeded_db
                                  "2024-02-01" "M9" "B9" 1 0)))).
    + split; reflexivity.
    + lia.
    + lia.
    + vm_compute. reflexivity.
  - apply (proj1 (proj2 (proj2 (proj2 (add_sale_validation_order seeded_db
                                         "2024-02-01" "M001" "B9" 1 0))))).
    + split; reflexivity.
    + lia.
    + lia.
    + vm_compute. eexists. reflexivity.
    + vm_compute. reflexivity.
  - apply (proj2 (proj2 (proj2 (proj2 (add_sale_validation_order seeded_db
                                         "2024-02-01" "M001" "B003" 21 0))))
             (BookRow "Machine Learning Guide" 1200 20)).
    + split; reflexivity.
    + lia.
    + lia.
    + vm_compute. eexists. reflexivity.
    + vm_compute. reflexivity.
    + simpl. lia.
Defined.

(** C3: when the earlier checks pass and the quantity exceeds the book's
    stock, [add_sale] returns failure with the insufficient-stock message,
    which spells out the current stock, and the store is unchanged: same
    stock for the book, same rows in [sale]. *)
Theorem insufficient_stock_rejected d sdate mid bid q disc b :
  date_shape sdate → 0 < q → 0 ≤ disc → is_Some (member d !! mid) →
  book d !! bid = Some b → bstock b < q →
  let res := add_sale sdate mid bid q disc d in
  res.1 = Val (false, "❌ 庫存不足，目前庫存為 " +:+ pretty (bstock b)
                        +:+ " 本。") ∧
  res.2 = d ∧ book res.2 !! bid = Some b ∧ sale res.2 = sale d.
Proof.
  intros Hdate Hq Hdisc Hm Hb Hstock res. subst res.
  rewrite (add_sale_no_stock d sdate mid bid q disc b) by done.
  by repeat split.
Qed.

(** The example of the specification: 999 copies of B003, of which 20 are
    in stock. *)
Lemma insufficient_stock_rejected_witness :
  let res := add_sale "2024-02-01" "M001" "B003" 999 0 seeded_db in
  res.1 = Val (false, "❌ 庫存不足，目前庫存為 20 本。") ∧
  res.2 = seeded_db ∧
  book res.2 !! "B003" = Some (BookRow "Machine Learning Guide" 1200 20) ∧
  sale res.2 = sale seeded_db.
Proof.
  apply (insufficient_stock_rejected seeded_db "2024-02-01" "M001" "B003"
           999 0 (BookRow "Machine Learning Guide" 1200 20)).
  - split; reflexivity.
  - lia.
  - lia.
  - vm_compute. eexists. reflexivity.
  - vm_compute. reflexivity.
  - simpl. lia.
Defined.

(** ** Updating a discount *)

(** C4, as the specification states it, fails: not every discount [>= 0]
    can be stored.  On the seeded store the user picks sale 1 and types a
    new discount of 2^63; binding it to the UPDATE raises [OverflowError]
    and the sale keeps its old discount and total. *)
Lemma update_discount_overflow_counterexample :
  (∃ r b, sale seeded_db !! 1 = Some r ∧ book seeded_db !! bid r = Some b) ∧
  nth_sid (sales_listing seeded_db) 1 = Some 1 ∧ 0 ≤ 2 ^ 63 ∧
  update_sale [Num 1; Num (2 ^ 63)] seeded_db = (Exc OverflowError, seeded_db).
Proof.
  split; [| split; [by vm_compute | split; [lia | by vm_compute]]].
  exists (SaleRow "2024-01-15" "M001" "B001" 2 100 1100),
         (BookRow "Python Programming" 600 50).
  split; by vm_compute.
Qed.

(** C4 (amended): for the sale the user picks from the listing and a new
    discount [>= 0] that, like the recomputed total, fits in a signed 64-bit
    integer, [update_sale] stores the new discount and the total
    [max(current price * the sale's quantity - new discount, 0)] in that
    row; the row's date, member, book and quantity, every other sale, and
    the [book] and [member] tables are unchanged. *)
Theorem update_discount_recomputes d k sid r b nd rest :
  1 ≤ k → nth_sid (sales_listing d) k = Some sid →
  sale d !! sid = Some r → book d !! bid r = Some b →
  0 ≤ nd → fits_int64 nd = true →
  fits_int64 (price_total (bprice b) (sqty r) nd) = true →
  let total := price_total (bprice b) (sqty r) nd in
  let res := update_sale (Num k :: Num nd :: rest) d in
  res.1 = Val (Updated sid total) ∧
  sale res.2 !! sid
    = Some (SaleRow (sdate r) (mid r) (bid r) (sqty r) nd total) ∧
  (∀ sid', sid' ≠ sid → sale res.2 !! sid' = sale d !! sid') ∧
  book res.2 = book d ∧ member res.2 = member d ∧
  sale_seq res.2 = sale_seq d.
Proof.
  intros Hk Hsid Hr Hb Hnd Fnd Ftotal total res. subst res.
  rewrite (update_sale_chosen d k sid nd rest) by done.
  rewrite (apply_discount_found d sid nd r b) by done.
  subst total. rewrite Fnd, Ftotal.
  cbn [andb fst snd discounted sale book member sale_seq].
  split; [done |]. split; [by rewrite lookup_alter_eq, Hr |].
  split; [| done]. intros sid' Hne. by rewrite lookup_alter_ne.
Qed.

(** The example of the specification: the discount of the sale of 2 copies
    at 600 goes from 100 to 50, the total becomes 1150. *)
Lemma update_discount_recomputes_witness :
  let res := update_sale [Num 1; Num 50] seeded_db in
  res.1 = Val (Updated 1 1150) ∧
  sale res.2 !! 1 = Some (SaleRow "2024-01-15" "M001" "B001" 2 50 1150) ∧
  (∀ sid', sid' ≠ 1 → sale res.2 !! sid' = sale seeded_db !! sid') ∧
  book res.2 = book seeded_db ∧ member res.2 = member seeded_db ∧
  sale_seq res.2 = sale_seq seeded_db.
Proof.
  apply (update_discount_recomputes seeded_db 1 1
           (SaleRow "2024-01-15" "M001" "B001" 2 100 1100)
           (BookRow "Python Programming" 600 50) 50 []).
  - lia.
  - vm_compute. reflexivity.
  - vm_compute. reflexivity.
  - vm_compute. reflexivity.
  - lia.
  - reflexivity.
  - reflexivity.
Defined.

(** A recomputed total beyond 64 bits is refused in the same way. *)
Example update_discount_total_overflow :
  let d := Db (member seeded_db) {[ "B9" := BookRow "Atlas" (2 ^ 62) 0 ]}
              {[ 1 := SaleRow "2024-01-15" "M001" "B9" 4 0 0 ]} 1 in
  update_sale [Num 1; Num 0] d = (Exc OverflowError, d).
Proof. by vm_compute. Qed.

(** ** Stock *)

(** C5: in every state reachable from the seeded store by creating sales,
    updating discounts and deleting sales, every book's stock is [>= 0]; in
    particular the book a successful [add_sale] refers to has a stock
    [>= 0] afterwards. *)
Theorem stock_never_negative d :
  reachable d →
  stock_nonneg d ∧
  ∀ sdate mid bid q disc msg d' b',
    add_sale sdate mid bid q disc d = (Val (true, msg), d') →
    book d' !! bid = Some b' → 0 ≤ bstock b'.
Proof.
  intros Hd.
  assert (stock_nonneg d) as Hnn
    by exact (steps_stock_nonneg _ _ Hd seeded_stock_nonneg).
  split; [done |]. intros sdate mid bid q disc msg d' b' Hadd.
  pose proof (stock_nonneg_run_op (CreateSale sdate mid bid q disc) d Hnn)
    as Hnn'.
  simpl in Hnn'. rewrite Hadd in Hnn'. apply Hnn'.
Qed.

Lemma stock_never_negative_witness :
  stock_nonneg seeded_db ∧
  ∀ sdate mid bid q disc msg d' b',
    add_sale sdate mid bid q disc seeded_db = (Val (true, msg), d') →
    book d' !! bid = Some b' → 0 ≤ bstock b'.
Proof. apply (stock_never_negative seeded_db). apply steps_refl. Defined.

(** ** Deleting a sale *)

(** C6: for the sale the user picks from the listing (possibly after
    attempts the loop refuses), [delete_sale] removes that row and no
    other: the identifier is gone, every other identifier maps to the row
    it had, the table is one row shorter, and the [book] table, stock
    included, is what it was. *)
Theorem delete_sale_frame d refused k sid rest :
  Forall (asked_again (length (sales_listing d))) refused →
  1 ≤ k → nth_sid (sales_listing d) k = Some sid →
  let res := delete_sale (refused ++ Num k :: rest) d in
  res.1 = Val (Deleted sid) ∧
  is_Some (sale d !! sid) ∧ sale res.2 !! sid = None ∧
  (∀ sid', sid' ≠ sid → sale res.2 !! sid' = sale d !! sid') ∧
  S (size (sale res.2)) = size (sale d) ∧
  book res.2 = book d.
Proof.
  intros Hrefused Hk Hsid res. subst res.
  destruct (nth_sid_listed _ _ _ Hsid) as (r & Hr & _).
  rewrite (delete_sale_chosen d refused k sid rest) by done. cbn [fst snd removed sale book].
  split; [done |]. split; [by eexists |].
  split; [by apply lookup_delete_eq |].
  split; [intros sid' Hne; by apply lookup_delete_ne |].
  split; [| done]. rewrite map_size_delete, Hr.
  assert (size (sale d) ≠ 0%nat); [| lia].
  intros Hz%map_size_empty_inv. by rewrite Hz in Hr.
Qed.

(** On the seeded store the user types a word, then 9, then picks entry 2:
    sale 2 goes, sales 1, 3 and 4 and all stocks stay. *)
Lemma delete_sale_frame_witness :
  let res := delete_sale ([Junk; Num 9] ++ Num 2 :: []) seeded_db in
  res.1 = Val (Deleted 2) ∧
  is_Some (sale seeded_db !! 2) ∧ sale res.2 !! 2 = None ∧
  (∀ sid', sid' ≠ 2 → sale res.2 !! sid' = sale seeded_db !! sid') ∧
  S (size (sale res.2)) = size (sale seeded_db) ∧
  book res.2 = book seeded_db.
Proof.
  apply (delete_sale_frame seeded_db [Junk; Num 9] 2 2 []).
  - apply Forall_cons; split; [exact I |].
    apply Forall_cons; split; [| apply Forall_nil_2].
    right. vm_compute. reflexivity.
  - lia.
  - vm_compute. reflexivity.
Defined.

(** ** Sale identifiers *)

(** C7: identifiers are never reused.  Take any state [d1] reachable from
    the seeded store and any identifier [sid] in use there; after any
    further operations, deletions included, a row that an operation adds
    under an identifier [sid'] not in the table has [sid < sid']. *)
Theorem sale_ids_never_reused d1 d2 o sid sid' :
  reachable d1 → steps d1 d2 →
  is_Some (sale d1 !! sid) →
  sale d2 !! sid' = None → is_Some (sale (run_op o d2) !! sid') →
  sid < sid'.
Proof.
  intros Hd1 Hd2 [r Hr] Hnone Hnew.
  pose proof (steps_seq_covers _ _ Hd1 seeded_seq_covers sid r Hr).
  pose proof (steps_sale_seq _ _ Hd2).
  pose proof (new_row_above_seq o d2 sid' Hnone Hnew). lia.
Qed.

(** Sale 4 of the seeded store is deleted, then a sale is created: the new
    row is number 5, not 4. *)
Lemma sale_ids_never_reused_witness :
  let d2 := run_op (DeleteSale [Num 4]) seeded_db in
  let o := CreateSale "2024-02-01" "M001" "B001" 2 100 in
  sale d2 !! 4 = None ∧ is_Some (sale (run_op o d2) !! 5) ∧ 4 < 5.
Proof.
  split; [vm_compute; reflexivity |].
  split; [vm_compute; eexists; reflexivity |].
  apply (sale_ids_never_reused seeded_db
           (run_op (DeleteSale [Num 4]) seeded_db)
           (CreateSale "2024-02-01" "M001" "B001" 2 100) 4 5).
  - apply steps_refl.
  - apply steps_op, steps_refl.
  - vm_compute. eexists. reflexivity.
  - vm_compute. reflexivity.
  - vm_compute. eexists. reflexivity.
Defined.

(** ** The initializer *)

(** C8: on a database file without tables the initializer creates the three
    tables and inserts 3 members, 3 books and 4 sales.  Run again on the
    result it finds no table missing and leaves every table as it is, so
    the row counts after two runs are those after one.  The same holds for
    a second run after a first run on any store. *)
Theorem initialize_db_idempotent :
  missing_tables empty_store = ["member"; "book"; "sale"] ∧
  initialize_db empty_store = (Val (), seeded_db) ∧
  missing_tables (store_of seeded_db) = [] ∧
  create_tables (store_of seeded_db) = seeded_db ∧
  initialize_db (store_of seeded_db) = (Val (), seeded_db) ∧
  size (member seeded_db) = 3%nat ∧
  size (book seeded_db) = 3%nat ∧
  size (sale seeded_db) = 4%nat ∧
  ∀ s, let d := (initialize_db s).2 in
       missing_tables (store_of d) = [] ∧
       initialize_db (store_of d) = (Val (), d).
Proof.
  do 8 (split; [by vm_compute |]). apply initialize_db_twice.
Qed.

(** C9, as the specification states it, fails: no seed sale departs from
    the pricing formula.  The row the specification cites has price 1200,
    quantity 3 and discount 200, and 1200 * 3 - 200 is the stored 3400. *)
Lemma seed_totals_counterexample :
  (¬ ∃ sid r, sale seeded_db !! sid = Some r ∧
              priced_by_formula seeded_db r = false) ∧
  sale seeded_db !! 3 = Some (SaleRow "2024-01-17" "M001" "B003" 3 200 3400) ∧
  bprice <$> book seeded_db !! "B003" = Some 1200 ∧
  price_total 1200 3 200 = 3400.
Proof.
  split; [| by vm_compute].
  intros (sid & r & Hr & Hbad).
  assert (map_Forall (λ _ r, priced_by_formula seeded_db r = true)
            (sale seeded_db)) as Hall by by_evaluation.
  apply Hall in Hr. congruence.
Qed.

(** C9 (amended): each of the four seed sale rows refers to a seed book, and
    its stored total is [max(price * quantity - discount, 0)] for that
    book's price. *)
Theorem seed_totals_follow_formula sid r :
  sale seeded_db !! sid = Some r →
  ∃ b, book seeded_db !! bid r = Some b ∧
       stotal r = price_total (bprice b) (sqty r) (sdiscount r).
Proof.
  intros Hr.
  assert (map_Forall (λ _ r, priced_by_formula seeded_db r = true)
            (sale seeded_db)) as Hall by by_evaluation.
  apply Hall in Hr. unfold priced_by_formula in Hr.
  destruct (book seeded_db !! bid r) as [b |]; [| done].
  exists b. split; [done |]. by apply Z.eqb_eq.
Qed.

Lemma seed_totals_follow_formula_witness :
  ∃ b, book seeded_db !! "B003" = Some b ∧
       3400 = price_total (bprice b) 3 200.
Proof.
  apply (seed_totals_follow_formula 3
           (SaleRow "2024-01-17" "M001" "B003" 3 200 3400)).
  vm_compute. reflexivity.
Defined.




(** With the identifiers of [sale] used up, the script stops at the first
    sale: members and books are in, no sale is. *)
Example seed_script_ids_exhausted :
  let s := Store (Some ∅) (Some ∅) (Some (∅, SQLITE_INT_MAX)) in
  let res := initialize_db s in
  res.1 = Exc OperationalError ∧
  size (member res.2) = 3%nat ∧ size (book res.2) = 3%nat ∧ sale res.2 = ∅.
Proof. repeat split; by vm_compute. Qed.

(** * Beyond the claims *)

(** ** What one call does to the store *)

Lemma sale_row_okb_ok d r : sale_row_okb d r = true → sale_row_ok d r.
Proof.
  unfold sale_row_okb, sale_row_ok, priced_by_formula.
  rewrite !andb_true_iff, Z.ltb_lt, Z.leb_le, bool_decide_eq_true.
  intros [[[Hq Hdisc] Hm] Hb].
  destruct (book d !! bid r) as [b |]; [| done].
  apply Z.eqb_eq in Hb. eauto 10.
Qed.

Lemma add_sale_outcome d sdate mid bid q disc :
  let res := add_sale sdate mid bid q disc d in
  ((∀ msg, res.1 ≠ Val (true, msg)) ∧ res.2 = d) ∨
  (∃ b sid,
     date_shape sdate ∧ 0 < q ≤ bstock b ∧ 0 ≤ disc ∧
     is_Some (member d !! mid) ∧ book d !! bid = Some b ∧
     next_sid d = Some sid ∧
     let total := price_total (bprice b) q disc in
     res = (Val (true, msg_added total),
            sold d sid (SaleRow sdate mid bid q disc total))).
Proof.
  intros res. subst res.
  destruct (decide (date_shape sdate)) as [Hdate |];
    [| left; by rewrite add_sale_bad_date].
  destruct (decide (0 < q ∧ 0 ≤ disc)) as [[Hq Hdisc] |];
    [| left; by rewrite add_sale_bad_bounds].
  destruct (member d !! mid) as [m |] eqn:Hm;
    [| left; by rewrite add_sale_no_member].
  destruct (book d !! bid) as [b |] eqn:Hb;
    [| left; by rewrite add_sale_no_book].
  destruct (decide (q ≤ bstock b)) as [Hstock |];
    [| left; rewrite (add_sale_no_stock d sdate mid bid q disc b);
         [done | done ..| lia]].
  rewrite (add_sale_checked d sdate mid bid q disc b) by done.
  cbn [stotal].
  destruct (_ && _); [| by left].
  destruct (next_sid d) as [sid |] eqn:Hsid; [| by left].
  right. exists b, sid. split; [done |]. repeat split; eauto; lia.
Qed.

Lemma read_choice_range n stdin k :
  read_choice n stdin = Val (Some k) → 1 ≤ k ≤ Z.of_nat n.
Proof.
  induction stdin as [| [| | c] stdin IH]; simpl; [done | done | done |].
  destruct (c <? 1) eqn:Hlo; [done |].
  destruct (c >? Z.of_nat n) eqn:Hhi; [done |]. simpl.
  intros [= <-]. apply Z.ltb_ge in Hlo.
  rewrite Z.gtb_ltb in Hhi. apply Z.ltb_ge in Hhi. lia.
Qed.

Lemma nth_sid_in_range sales k :
  1 ≤ k ≤ Z.of_nat (length sales) → is_Some (nth_sid sales k).
Proof.
  intros Hk. unfold nth_sid.
  destruct (lookup_lt_is_Some_2 sales (Z.to_nat (k - 1))) as [row Hrow];
    [lia |].
  rewrite Hrow. by eexists.
Qed.

Lemma update_sale_outcome stdin d :
  let res := update_sale stdin d in
  ((∀ sid total, res.1 ≠ Val (Updated sid total)) ∧ res.2 = d) ∨
  (∃ k nd rest sid r b,
     stdin = Num k :: Num nd :: rest ∧
     1 ≤ k ∧ nth_sid (sales_listing d) k = Some sid ∧ 0 ≤ nd ∧
     sale d !! sid = Some r ∧ book d !! bid r = Some b ∧
     let total := price_total (bprice b) (sqty r) nd in
     res = (Val (Updated sid total), discounted d sid nd total)).
Proof.
  intros res. subst res. unfold update_sale. rewrite bind_select_sales.
  destruct (sales_listing d) as [| row sales] eqn:Hl; [by left |].
  destruct stdin as [| [| | k] stdin]; [by left .. |].
  destruct (k <? 1) eqn:Hlo; [by left |].
  destruct (k >? _) eqn:Hhi; [by left |]. cbn [orb].
  apply Z.ltb_ge in Hlo.
  destruct (nth_sid _ k) as [sid |] eqn:Hsid; [| by left].
  destruct stdin as [| [| | nd] stdin]; [by left .. |].
  destruct (nd <? 0) eqn:Hnd; [by left |]. apply Z.ltb_ge in Hnd.
  rewrite <- Hl in Hsid.
  destruct (nth_sid_listed _ _ _ Hsid) as (r & Hr & _).
  destruct (book d !! bid r) as [b |] eqn:Hb.
  - rewrite (apply_discount_found d sid nd r b) by done.
    destruct (_ && _); [| by left].
    right. exists k, nd, stdin, sid, r, b. cbv zeta.
    repeat split; try done. by rewrite <- Hl.
  - left. unfold apply_discount, bind, select_qty_price.
    rewrite Hr. simpl. by rewrite Hb.
Qed.

(** The position [read_choice] accepts is a line of the input. *)
Lemma read_choice_typed n stdin k :
  read_choice n stdin = Val (Some k) → Num k ∈ stdin.
Proof.
  induction stdin as [| [| | c] stdin IH]; simpl; [done | done | |].
  - intros H. right. by apply IH.
  - destruct (_ || _); [intros H; right; by apply IH |].
    intros [= <-]. left.
Qed.

Lemma delete_sale_outcome stdin d :
  let res := delete_sale stdin d in
  ((res.1 = Val NoSales ∨ res.1 = Val Cancelled ∨ res.1 = Exc EOFError) ∧
   res.2 = d) ∨
  (∃ k sid,
     read_choice (length (sales_listing d)) stdin = Val (Some k) ∧
     1 ≤ k ∧ nth_sid (sales_listing d) k = Some sid ∧
     is_Some (sale d !! sid) ∧
     res = (Val (Deleted sid), removed d sid)).
Proof.
  intros res. subst res. unfold delete_sale. rewrite bind_select_sales.
  destruct (sales_listing d) as [| row sales] eqn:Hl; [left; by auto |].
  destruct (read_choice _ stdin) as [[k |] | e] eqn:Hread.
  - pose proof (read_choice_range _ _ _ Hread) as Hk.
    destruct (nth_sid_in_range (row :: sales) k Hk) as [sid Hsid].
    rewrite Hsid. rewrite <- Hl in Hsid.
    destruct (nth_sid_listed _ _ _ Hsid) as (r & Hr & _).
    right. exists k, sid. repeat split; [lia | by rewrite <- Hl | by eexists].
  - left; by auto.
  - left. split; [| done]. right; right.
    assert (e = EOFError) as ->; [| done].
    clear -Hread. induction stdin as [| [| | c] stdin IH]; simpl in Hread.
    + by injection Hread.
    + done.
    + by apply IH.
    + destruct (_ || _); [by apply IH | done].
Qed.

(** Every operation is one of four things to the store. *)
Lemma run_op_effect o d :
  run_op o d = d ∨
  (∃ sid r b,
     0 < sqty r ≤ bstock b ∧ 0 ≤ sdiscount r ∧
     is_Some (member d !! mid r) ∧ book d !! bid r = Some b ∧
     stotal r = price_total (bprice b) (sqty r) (sdiscount r) ∧
     next_sid d = Some sid ∧ run_op o d = sold d sid r) ∨
  (∃ sid nd r b,
     sale d !! sid = Some r ∧ book d !! bid r = Some b ∧ 0 ≤ nd ∧
     run_op o d = discounted d sid nd (price_total (bprice b) (sqty r) nd)) ∨
  (∃ sid, is_Some (sale d !! sid) ∧ run_op o d = removed d sid).
Proof.
  destruct o as [sdate mid bid q disc | stdin | stdin]; simpl.
  - destruct (add_sale_outcome d sdate mid bid q disc)
      as [[_ H] | (b & sid & _ & Hq & Hdisc & Hm & Hb & Hsid & H)];
      [by left |].
    right; left. simpl in H.
    exists sid, (SaleRow sdate mid bid q disc (price_total (bprice b) q disc)),
           b.
    rewrite H. simpl. repeat split; (done || lia).
  - destruct (update_sale_outcome stdin d)
      as [[_ H] | (k & nd & rest & sid & r & b & _ & _ & _ & Hnd & Hr & Hb & H)];
      [by left |].
    right; right; left. simpl in H. exists sid, nd, r, b. by rewrite H.
  - destruct (delete_sale_outcome stdin d)
      as [[_ H] | (k & sid & _ & _ & _ & Hr & H)]; [by left |].
    right; right; right. exists sid. by rewrite H.
Qed.

(** ** What the operations keep *)

Lemma book_table_after_refl books : book_table_after books books.
Proof.
  intros bid. destruct (books !! bid) as [b |]; [| done].
  unfold book_row_after. by repeat split.
Qed.

Lemma book_table_after_trans books1 books2 books3 :
  book_table_after books1 books2 → book_table_after books2 books3 →
  book_table_after books1 books3.
Proof.
  intros H12 H23 bid. specialize (H12 bid). specialize (H23 bid).
  destruct (books1 !! bid) as [b1 |], (books2 !! bid) as [b2 |],
    (books3 !! bid) as [b3 |]; try done.
  destruct H12 as (? & ? & ?), H23 as (? & ? & ?).
  unfold book_row_after. repeat split; (congruence || lia).
Qed.

Lemma book_table_after_decrement books bid q :
  0 < q → book_table_after books (alter (decrement_stock q) bid books).
Proof.
  intros Hq bid'. rewrite lookup_alter. case_decide as Heq.
  - subst bid'. destruct (books !! bid) as [b |]; [| done]. simpl.
    unfold book_row_after. simpl. repeat split; (done || lia).
  - destruct (books !! bid') as [b |]; [| done].
    unfold book_row_after. by repeat split.
Qed.

Lemma member_run_op o d : member (run_op o d) = member d.
Proof.
  destruct (run_op_effect o d)
    as [-> | [(? & ? & ? & _ & _ & _ & _ & _ & _ & ->)
             | [(? & ? & ? & ? & _ & _ & _ & ->) | (? & _ & ->)]]]; done.
Qed.

Lemma book_run_op o d : book_table_after (book d) (book (run_op o d)).
Proof.
  destruct (run_op_effect o d)
    as [-> | [(sid & r & b & Hq & _ & _ & _ & _ & _ & ->)
             | [(? & ? & ? & ? & _ & _ & _ & ->) | (? & _ & ->)]]];
    try apply book_table_after_refl.
  apply book_table_after_decrement. lia.
Qed.

(** Whether a row is well formed depends on the store only through the
    members and the book prices. *)
Lemma sale_row_ok_frame d d' r :
  member d' = member d → book_table_after (book d) (book d') →
  sale_row_ok d r → sale_row_ok d' r.
Proof.
  intros Hm Hb (Hq & Hdisc & Hmem & b & Hbook & Htotal).
  specialize (Hb (bid r)). rewrite Hbook in Hb.
  destruct (book d' !! bid r) as [b' |] eqn:Hb'; [| done].
  destruct Hb as (_ & Hprice & _).
  repeat split; [done | done | by rewrite Hm |].
  exists b'. split; [done |]. by rewrite Hprice.
Qed.

Lemma sale_rows_ok_run_op o d : sale_rows_ok d → sale_rows_ok (run_op o d).
Proof.
  intros Hd sid' r' Hr'.
  apply (sale_row_ok_frame d); [apply member_run_op | apply book_run_op |].
  destruct (run_op_effect o d)
    as [Heq | [(sid & r & b & Hq & Hdisc & Hm & Hb & Htotal & _ & Heq)
              | [(sid & nd & r & b & Hr & Hb & Hnd & Heq) | (sid & _ & Heq)]]];
    rewrite Heq in Hr'; simpl in Hr'.
  - by apply (Hd sid').
  - rewrite lookup_insert in Hr'. case_decide; [| by apply (Hd sid')].
    injection Hr' as <-. repeat split; [lia | done | done |]. by exists b.
  - rewrite lookup_alter in Hr'. case_decide; [| by apply (Hd sid')].
    subst sid'. rewrite Hr in Hr'. injection Hr' as <-.
    destruct (Hd sid r Hr) as (Hq & _ & Hm & _).
    repeat split; [done | done | done |]. by exists b.
  - rewrite lookup_delete in Hr'. case_decide; [done | by apply (Hd sid')].
Qed.

Lemma steps_sale_rows_ok d d' : steps d d' → sale_rows_ok d → sale_rows_ok d'.
Proof. induction 1; auto using sale_rows_ok_run_op. Qed.

Lemma steps_member d d' : steps d d' → member d' = member d.
Proof.
  induction 1 as [| d' o _ IH]; [done |]. by rewrite member_run_op.
Qed.

Lemma steps_book d d' : steps d d' → book_table_after (book d) (book d').
Proof.
  induction 1 as [| d' o _ IH]; [apply book_table_after_refl |].
  eapply book_table_after_trans; [done | apply book_run_op].
Qed.

Lemma seeded_sale_rows_ok : sale_rows_ok seeded_db.
Proof.
  intros sid r Hr. apply sale_row_okb_ok.
  assert (map_Forall (λ _ r, sale_row_okb seeded_db r = true)
            (sale seeded_db)) as Hall by by_evaluation.
  by apply (Hall sid).
Qed.


(** X2: no sequence of operations touches the [member] table, adds or
    removes a book, or changes a book's title or price; a book's stock
    never goes up. *)
Theorem operations_frame d d' :
  steps d d' →
  member d' = member d ∧ book_table_after (book d) (book d').
Proof. intros H. split; [by apply steps_member | by apply steps_book]. Qed.

Lemma operations_frame_witness :
  let d' := run_op (CreateSale "2024-02-01" "M001" "B001" 2 100) seeded_db in
  member d' = member seeded_db ∧ book_table_after (book seeded_db) (book d').
Proof.
  apply (operations_frame seeded_db
           (run_op (CreateSale "2024-02-01" "M001" "B001" 2 100) seeded_db)).
  apply steps_op, steps_refl.
Defined.

(** X3: in every state reachable from the seeded store every sale row has a
    quantity [> 0], a discount [>= 0], a member and a book that exist, and a
    total equal to [max(price * quantity - discount, 0)] at the book's
    current price. *)
Theorem reachable_sale_rows_ok d : reachable d → sale_rows_ok d.
Proof. intros Hd. exact (steps_sale_rows_ok _ _ Hd seeded_sale_rows_ok). Qed.

Lemma reachable_sale_rows_ok_witness :
  sale_rows_ok (run_op (UpdateDiscount [Num 3; Num 5000]) seeded_db).
Proof.
  apply (reachable_sale_rows_ok
           (run_op (UpdateDiscount [Num 3; Num 5000]) seeded_db)).
  apply steps_op, steps_refl.
Defined.


(** X5: whatever is typed, [delete_sale] does nothing to the store but
    delete one sale, and that sale is one the listing offered at a position
    the user typed.  When there is no sale to choose from, when the user
    cancels with an empty line and when the input ends, the store is what
    it was; when the deletion is reported, the sale is gone.  The index into
    the listing is never out of range. *)
Theorem delete_sale_store_effect stdin d :
  let res := delete_sale stdin d in
  (res.2 = d ∨
   ∃ k sid, Num k ∈ stdin ∧ 1 ≤ k ∧
            nth_sid (sales_listing d) k = Some sid ∧
            is_Some (sale d !! sid) ∧ res.2 = removed d sid) ∧
  (res.1 = Val NoSales ∨ res.1 = Val Cancelled ∨ res.1 = Exc EOFError →
   res.2 = d) ∧
  (∀ sid, res.1 = Val (Deleted sid) →
          is_Some (sale d !! sid) ∧ sale res.2 !! sid = None ∧
          res.2 = removed d sid) ∧
  res.1 ≠ Exc IndexError.
Proof.
  intros res. subst res.
  destruct (delete_sale_outcome stdin d)
    as [[Hres Hd] | (k & sid & Hread & Hk & Hsid & Hrow & H)].
  - split; [by left |]. split; [done |].
    split; [| by destruct Hres as [-> | [-> | ->]]].
    intros sid Hdel. by destruct Hres as [H | [H | H]]; rewrite H in Hdel.
  - simpl in H. rewrite H. cbn [fst snd].
    split.
    { right. exists k, sid. split; [by eapply read_choice_typed |].
      by repeat split. }
    split; [by intros [? | [? | ?]] |]. split; [| done].
    intros sid' [= <-]. split; [done |]. split; [| done].
    unfold removed. simpl. apply lookup_delete_eq.
Qed.

(** ** The listing and how the operations change it *)

Lemma sorted_sids_sorted rows : StronglySorted Z.le (sorted_sids rows).
Proof. apply StronglySorted_merge_sort; apply _. Qed.

Lemma elem_of_sorted_sids rows sid :
  sid ∈ sorted_sids rows ↔ is_Some (rows !! sid).
Proof.
  unfold sorted_sids. rewrite merge_sort_Permutation, list_elem_of_fmap.
  split.
  - intros ([sid' r] & -> & Hin). apply elem_of_map_to_list in Hin.
    by exists r.
  - intros [r Hr]. exists (sid, r). split; [done |].
    by apply elem_of_map_to_list.
Qed.

Lemma NoDup_sorted_sids rows : NoDup (sorted_sids rows).
Proof.
  unfold sorted_sids. rewrite merge_sort_Permutation.
  apply NoDup_fst_map_to_list.
Qed.

(** [sorted_sids] is the one ascending list of the identifiers in use. *)
Lemma sorted_sids_unique rows l :
  StronglySorted Z.le l → NoDup l →
  (∀ sid, sid ∈ l ↔ is_Some (rows !! sid)) →
  sorted_sids rows = l.
Proof.
  intros Hsorted Hnd Hl.
  apply (StronglySorted_unique Z.le); [apply sorted_sids_sorted | done |].
  apply NoDup_Permutation; [apply NoDup_sorted_sids | done |].
  intros sid. by rewrite elem_of_sorted_sids, Hl.
Qed.

Lemma StronglySorted_filter {A} (R : relation A) (P : A → Prop)
    `{∀ x, Decision (P x)} l :
  StronglySorted R l → StronglySorted R (filter P l).
Proof.
  induction 1 as [| x l _ IH Hx]; [constructor |].
  rewrite filter_cons. case_decide; [| done].
  constructor; [done |]. rewrite Forall_forall in *.
  intros y [_ Hy]%list_elem_of_filter. by apply Hx.
Qed.

Lemma StronglySorted_le_lt l :
  StronglySorted Z.le l → NoDup l → StronglySorted Z.lt l.
Proof.
  induction 1 as [| x l _ IH Hx]; intros Hnd; [constructor |].
  apply NoDup_cons in Hnd as [Hx' Hnd]. constructor; [by apply IH |].
  rewrite Forall_forall in *. intros y Hy.
  assert (x ≠ y) by (by intros ->). specialize (Hx y Hy). lia.
Qed.

Lemma sorted_sids_alter f sid rows :
  sorted_sids (alter f sid rows) = sorted_sids rows.
Proof.
  apply sorted_sids_unique;
    [apply sorted_sids_sorted | apply NoDup_sorted_sids |].
  intros sid'. rewrite elem_of_sorted_sids, lookup_alter.
  case_decide; [| done]. subst sid'. by rewrite fmap_is_Some.
Qed.

Lemma sorted_sids_delete sid rows :
  sorted_sids (delete sid rows) = filter (λ x, x ≠ sid) (sorted_sids rows).
Proof.
  apply sorted_sids_unique.
  - apply StronglySorted_filter, sorted_sids_sorted.
  - apply NoDup_filter, NoDup_sorted_sids.
  - intros sid'. rewrite list_elem_of_filter, elem_of_sorted_sids.
    rewrite lookup_delete. case_decide as Heq.
    + subst sid'. split; [by intros [] | by intros [? ?]].
    + split; [by intros [_ ?] | done].
Qed.

Lemma sorted_sids_insert_last sid r rows :
  (∀ sid' r', rows !! sid' = Some r' → sid' < sid) →
  sorted_sids (<[sid := r]> rows) = (sorted_sids rows ++ [sid])%list.
Proof.
  intros Hlast. apply sorted_sids_unique.
  - apply StronglySorted_app_2;
      [| apply sorted_sids_sorted | repeat constructor].
    intros x1 x2 [r1 Hr1]%elem_of_sorted_sids ->%list_elem_of_singleton.
    specialize (Hlast x1 r1 Hr1). lia.
  - apply NoDup_app. split; [apply NoDup_sorted_sids |].
    split; [| apply NoDup_singleton].
    intros x [r1 Hr1]%elem_of_sorted_sids ->%list_elem_of_singleton.
    specialize (Hlast sid r1 Hr1). lia.
  - intros sid'. rewrite elem_of_app, list_elem_of_singleton.
    rewrite elem_of_sorted_sids, lookup_insert. case_decide as Heq.
    + subst sid'. split; [by eexists | by right].
    + split; [by intros [? | ?] | by left].
Qed.

Lemma sales_listing_discounted d sid nd total :
  sales_listing (discounted d sid nd total) = sales_listing d.
Proof.
  unfold sales_listing, discounted. cbn [sale]. rewrite sorted_sids_alter.
  apply list_omap_ext. apply Forall2_same_length_lookup_2; [done |].
  intros i x y Hx Hy. assert (x = y) as -> by congruence.
  unfold joined_row. cbn [sale member]. rewrite lookup_alter.
  case_decide as Heq; [| done]. subst y.
  by destruct (sale d !! sid).
Qed.

Lemma sales_listing_removed d sid :
  sales_listing (removed d sid) =
    filter (λ row, row.1.1 ≠ sid) (sales_listing d).
Proof.
  unfold sales_listing, removed. cbn [sale]. rewrite sorted_sids_delete.
  induction (sorted_sids (sale d)) as [| x l IH]; [done |].
  rewrite filter_cons. case_decide as Hx.
  - cbn [omap list_omap].
    assert (joined_row (Db (member d) (book d) (delete sid (sale d))
                          (sale_seq d)) x = joined_row d x) as ->.
    { unfold joined_row. cbn [sale member]. by rewrite lookup_delete_ne. }
    destruct (joined_row d x) as [row |] eqn:Hrow; [| done].
    rewrite filter_cons_True, IH; [done |].
    by rewrite (joined_row_sid _ _ _ Hrow).
  - subst x. cbn [omap list_omap].
    destruct (joined_row d sid) as [row |] eqn:Hrow; [| done].
    rewrite filter_cons. case_decide as Hrow'; [| done].
    by rewrite (joined_row_sid _ _ _ Hrow) in Hrow'.
Qed.

Lemma sales_listing_sold d sid r m :
  next_sid d = Some sid → member d !! mid r = Some m →
  sales_listing (sold d sid r)
    = (sales_listing d ++ [(sid, sdate r, mname m)])%list.
Proof.
  intros Hsid Hm. unfold sales_listing, sold. cbn [sale].
  rewrite sorted_sids_insert_last, omap_app.
  - f_equal.
    + apply list_omap_ext. apply Forall2_same_length_lookup_2; [done |].
      intros i x y Hx Hy. assert (x = y) as -> by congruence.
      unfold joined_row. cbn [sale member]. rewrite lookup_insert_ne; [done |].
      apply list_elem_of_lookup_2, elem_of_sorted_sids in Hy as [r' Hr'].
      intros <-. by rewrite (next_sid_fresh _ _ Hsid) in Hr'.
    + cbn [omap list_omap]. unfold joined_row. cbn [sale member].
      rewrite lookup_insert_eq. simpl. by rewrite Hm.
  - intros sid' r' Hr'. apply next_sid_Some in Hsid as [-> _].
    apply max_rowid_ub in Hr'. lia.
Qed.

Lemma sales_listing_sids d :
  (sales_listing d).*1.*1 =
    filter (λ sid, is_Some (joined_row d sid)) (sorted_sids (sale d)).
Proof.
  unfold sales_listing.
  induction (sorted_sids (sale d)) as [| x l IH]; [done |].
  cbn [omap list_omap]. rewrite filter_cons.
  destruct (joined_row d x) as [row |] eqn:Hrow.
  - rewrite decide_True by by eexists. cbn [fmap list_fmap].
    by rewrite IH, (joined_row_sid _ _ _ Hrow).
  - rewrite decide_False; [done |]. by intros [? ?].
Qed.

Lemma listing_entry d sid date name :
  (sid, date, name) ∈ sales_listing d ↔
  ∃ r m, sale d !! sid = Some r ∧ member d !! mid r = Some m ∧
         date = sdate r ∧ name = mname m.
Proof.
  unfold sales_listing. rewrite list_elem_of_omap. split.
  - intros (sid' & _ & Hrow). unfold joined_row in Hrow.
    destruct (sale d !! sid') as [r |] eqn:Hr; [| done]. simpl in Hrow.
    destruct (member d !! mid r) as [m |] eqn:Hm; [| done].
    injection Hrow as -> <- <-. by exists r, m.
  - intros (r & m & Hr & Hm & -> & ->). exists sid.
    split; [apply elem_of_sorted_sids; by eexists |].
    unfold joined_row. rewrite Hr. simpl. by rewrite Hm.
Qed.

Lemma sales_listing_sorted d : StronglySorted Z.lt (sales_listing d).*1.*1.
Proof.
  rewrite sales_listing_sids. apply StronglySorted_filter.
  apply StronglySorted_le_lt; [apply sorted_sids_sorted |].
  apply NoDup_sorted_sids.
Qed.

Lemma length_sorted_sids rows : length (sorted_sids rows) = size rows.
Proof.
  unfold sorted_sids.
  by rewrite merge_sort_Permutation, length_fmap, length_map_to_list.
Qed.

Lemma sales_listing_complete d :
  (∀ sid r, sale d !! sid = Some r → is_Some (member d !! mid r)) →
  (sales_listing d).*1.*1 = sorted_sids (sale d).
Proof.
  intros Hd. rewrite sales_listing_sids.
  assert (Forall (λ sid, is_Some (joined_row d sid)) (sorted_sids (sale d)))
    as Hall.
  { apply Forall_forall. intros sid [r Hr]%elem_of_sorted_sids.
    destruct (Hd sid r Hr) as [m Hm].
    unfold joined_row. rewrite Hr. simpl. rewrite Hm. by eexists. }
  induction Hall as [| x l Hx _ IH]; [done |].
  by rewrite filter_cons_True, IH.
Qed.

(** X6: the listing offers the sales whose member exists, and no other, each
    once and in ascending order of identifier, with the sale's date and the
    member's name. *)
Theorem sales_listing_spec d :
  StronglySorted Z.lt (sales_listing d).*1.*1 ∧
  ∀ sid date name,
    (sid, date, name) ∈ sales_listing d ↔
    ∃ r m, sale d !! sid = Some r ∧ member d !! mid r = Some m ∧
           date = sdate r ∧ name = mname m.
Proof. split; [apply sales_listing_sorted | apply listing_entry]. Qed.

(** X7: in every state reachable from the seeded store the listing offers
    every sale: it has as many entries as [sale] has rows, so every sale
    can be picked for an update or a deletion. *)
Theorem reachable_listing_complete d :
  reachable d →
  length (sales_listing d) = size (sale d) ∧
  ∀ sid, is_Some (sale d !! sid) →
         ∃ k, 1 ≤ k ≤ Z.of_nat (size (sale d)) ∧
              nth_sid (sales_listing d) k = Some sid.
Proof.
  intros Hd.
  pose proof (steps_sale_rows_ok _ _ Hd seeded_sale_rows_ok) as Hok.
  assert (length (sales_listing d) = size (sale d)) as Hlen.
  { rewrite <- length_sorted_sids, <- (sales_listing_complete d).
    - by rewrite !length_fmap.
    - intros sid r Hr. by destruct (Hok sid r Hr) as (_ & _ & ? & _). }
  split; [done |]. intros sid [r Hr].
  destruct (Hok sid r Hr) as (_ & _ & Hm & _).
  destruct (listed_selectable d sid r Hr Hm) as (k & Hk & Hsid).
  exists k. split; [| done]. rewrite <- Hlen.
  pose proof (nth_sid_length _ _ _ Hk Hsid). lia.
Qed.

Lemma reachable_listing_complete_witness :
  let d := run_op (DeleteSale [Num 2]) seeded_db in
  length (sales_listing d) = size (sale d) ∧
  ∀ sid, is_Some (sale d !! sid) →
         ∃ k, 1 ≤ k ≤ Z.of_nat (size (sale d)) ∧
              nth_sid (sales_listing d) k = Some sid.
Proof.
  apply (reachable_listing_complete (run_op (DeleteSale [Num 2]) seeded_db)).
  apply steps_op, steps_refl.
Defined.

(** X8: a sale that [add_sale] has recorded is the last entry of the
    listing: the listing is the old one followed by the new sale, which is
    picked by typing the new number of entries. *)
Theorem add_sale_listed_last d sdate mid bid q disc msg d' :
  add_sale sdate mid bid q disc d = (Val (true, msg), d') →
  ∃ sid m,
    next_sid d = Some sid ∧ member d !! mid = Some m ∧
    sales_listing d' = (sales_listing d ++ [(sid, sdate, mname m)])%list ∧
    nth_sid (sales_listing d') (Z.of_nat (length (sales_listing d')))
      = Some sid.
Proof.
  intros Hadd.
  destruct (add_sale_outcome d sdate mid bid q disc)
    as [[Hno _] | (b & sid & _ & _ & _ & [m Hm] & _ & Hsid & H)].
  { rewrite Hadd in Hno. by destruct (Hno msg). }
  simpl in H. rewrite Hadd in H. injection H as _ ->.
  exists sid, m. split; [done |]. split; [done |].
  rewrite (sales_listing_sold d sid
             (SaleRow sdate mid bid q disc (price_total (bprice b) q disc))
             m Hsid Hm).
  split; [done |].
  unfold nth_sid. rewrite length_app. simpl.
  replace (Z.to_nat (Z.of_nat (length (sales_listing d) + 1) - 1))
    with (length (sales_listing d) + 0)%nat by lia.
  by rewrite lookup_app_r, Nat.add_0_r, Nat.sub_diag by lia.
Qed.

Lemma add_sale_listed_last_witness :
  ∃ sid m,
    next_sid seeded_db = Some sid ∧ member seeded_db !! "M002" = Some m ∧
    sales_listing
      (add_sale "2024-02-01" "M002" "B001" 2 100 seeded_db).2
      = (sales_listing seeded_db ++ [(sid, "2024-02-01", mname m)])%list ∧
    nth_sid
      (sales_listing (add_sale "2024-02-01" "M002" "B001" 2 100 seeded_db).2)
      (Z.of_nat (length (sales_listing
         (add_sale "2024-02-01" "M002" "B001" 2 100 seeded_db).2)))
      = Some sid.
Proof.
  apply (add_sale_listed_last seeded_db "2024-02-01" "M002" "B001" 2 100
           (msg_added 1100)).
  vm_compute. reflexivity.
Defined.

(** X9: after [delete_sale] has deleted a sale, the listing is the old one
    without that sale's entry, the other entries in their old order; the
    deleted sale can no longer be picked. *)
Theorem delete_sale_unlisted stdin d sid d' :
  delete_sale stdin d = (Val (Deleted sid), d') →
  sales_listing d' = filter (λ row, row.1.1 ≠ sid) (sales_listing d) ∧
  ∀ k, nth_sid (sales_listing d') k ≠ Some sid.
Proof.
  intros Hdel.
  destruct (delete_sale_outcome stdin d)
    as [[[H | [H | H]] _] | (k0 & sid' & _ & _ & _ & _ & H)];
    rewrite Hdel in H; try done.
  injection H as -> ->.
  rewrite sales_listing_removed. split; [done |].
  intros k Hk. unfold nth_sid in Hk.
  destruct (filter _ _ !! _) as [row |] eqn:Hrow; [| done].
  injection Hk as Hk.
  apply list_elem_of_lookup_2, list_elem_of_filter in Hrow as [Hne _].
  done.
Qed.

Lemma delete_sale_unlisted_witness :
  let d' := (delete_sale [Num 2] seeded_db).2 in
  sales_listing d' = filter (λ row, row.1.1 ≠ 2) (sales_listing seeded_db) ∧
  ∀ k, nth_sid (sales_listing d') k ≠ Some 2.
Proof.
  apply (delete_sale_unlisted [Num 2] seeded_db 2).
  vm_compute. reflexivity.
Defined.

(** X10: the last discount wins.  If giving the sale at position [k] the
    discount [nd2] works on a store, it works in the same way, with the same
    report and the same resulting store, after an earlier attempt to give
    that sale another discount, whether that attempt succeeded or not. *)
Theorem update_sale_last_wins d k nd1 nd2 rest1 rest2 sid total d2 :
  update_sale (Num k :: Num nd2 :: rest2) d = (Val (Updated sid total), d2) →
  update_sale (Num k :: Num nd2 :: rest2)
              (update_sale (Num k :: Num nd1 :: rest1) d).2
    = (Val (Updated sid total), d2).
Proof.
  intros H2.
  destruct (update_sale_outcome (Num k :: Num nd2 :: rest2) d)
    as [[Hno _] | (k' & nd' & rest' & sid' & r & b & Heq & Hk & Hsid & Hnd2
                   & Hr & Hb & H)].
  { rewrite H2 in Hno. by destruct (Hno sid total). }
  injection Heq as <- <- <-. simpl in H. rewrite H2 in H.
  injection H as Hs Ht Hd. subst sid' total d2.
  destruct (update_sale_outcome (Num k :: Num nd1 :: rest1) d)
    as [[_ ->] | (k1 & nd1' & rest1' & sid1 & r1 & b1 & Heq & _ & Hsid1 & _
                  & Hr1 & Hb1 & H1)]; [done |].
  injection Heq as <- <- <-. simpl in H1. rewrite H1. cbn [snd].
  assert (sid1 = sid) as -> by congruence.
  assert (r1 = r) as -> by congruence.
  assert (b1 = b) as -> by congruence.
  set (t1 := price_total (bprice b) (sqty r) nd1).
  set (t2 := price_total (bprice b) (sqty r) nd2).
  rewrite (update_sale_chosen _ k sid nd2 rest2);
    [| done | by rewrite sales_listing_discounted | done].
  rewrite (apply_discount_found _ sid nd2 (set_discount nd1 t1 r) b);
    [| by cbn; rewrite lookup_alter_eq, Hr | done].
  rewrite (update_sale_chosen d k sid nd2 rest2) in H2 by done.
  rewrite (apply_discount_found d sid nd2 r b) in H2 by done.
  cbn [sqty set_discount]. fold t2 in H2 |- *.
  destruct (_ && _); [| done]. f_equal.
  unfold discounted. cbn [member book sale sale_seq]. f_equal.
  rewrite alter_alter_eq. by apply alter_ext.
Qed.

Lemma update_sale_last_wins_witness :
  update_sale [Num 1; Num 50]
              (update_sale [Num 1; Num 300] seeded_db).2
    = (Val (Updated 1 1150), (update_sale [Num 1; Num 50] seeded_db).2).
Proof.
  apply (update_sale_last_wins seeded_db 1 300 50 [] [] 1 1150).
  vm_compute. reflexivity.
Defined.

(** ** What the terminal functions write *)

Lemma for_each_print lines w :
  for_each lines print w =
    (Done (), World (conn w) (stdin w) (stdout w ++ (Print <$> lines))).
Proof.
  revert w. induction lines as [| l lines IH]; intros w.
  - simpl. unfold io_ret. rewrite app_nil_r. by destruct w.
  - cbn [for_each]. unfold io_bind, print at 1. rewrite IH. simpl.
    by rewrite <- app_assoc.
Qed.

Lemma for_each_report_blocks start rows w :
  for_each (enumerate start rows)
    (λ '(idx, row), for_each (report_block idx row) print) w =
    (Done (), World (conn w) (stdin w)
       (stdout w ++ (Print <$> mjoin ((λ '(idx, row), report_block idx row)
                                        <$> enumerate start rows)))).
Proof.
  revert start w. induction rows as [| row rows IH]; intros start w.
  - simpl. unfold io_ret. rewrite app_nil_r. by destruct w.
  - cbn [enumerate for_each fmap list_fmap mjoin list_join].
    unfold io_bind. rewrite for_each_print, IH. cbn [conn stdin stdout].
    by rewrite fmap_app, app_assoc.
Qed.

Lemma print_sale_report_writes w :
  print_sale_report w =
    (Done (), World (conn w) (stdin w)
       (stdout w ++ report_text (report_rows (conn w)))).
Proof.
  unfold print_sale_report, io_bind at 1, lift, select_report.
  destruct w as [d lines out]. cbn [conn stdin stdout].
  destruct (report_rows d) as [| row rows] eqn:Hrows; [done |].
  unfold io_bind, print at 1. cbn [conn stdin stdout].
  rewrite for_each_report_blocks. cbn [conn stdin stdout report_text].
  by rewrite <- app_assoc.
Qed.

Lemma length_report_blocks start rows :
  length (mjoin ((λ '(idx, row), report_block idx row)
                   <$> enumerate start rows)) = (12 * length rows)%nat.
Proof.
  revert start. induction rows as [| row rows IH]; intros start; [done |].
  cbn [enumerate fmap list_fmap mjoin list_join].
  rewrite length_app, IH. simpl. lia.
Qed.

Lemma report_entry d row :
  row ∈ report_rows d ↔
  ∃ r m b, sale d !! r_sid row = Some r ∧ member d !! mid r = Some m ∧
           book d !! bid r = Some b ∧
           row = ReportRow (r_sid row) (sdate r) (sqty r) (sdiscount r)
                           (stotal r) (mname m) (btitle b) (bprice b).
Proof.
  unfold report_rows. rewrite list_elem_of_omap. split.
  - intros (sid & _ & Hrow). unfold report_row_of in Hrow.
    destruct (sale d !! sid) as [r |] eqn:Hr; [| done]. simpl in Hrow.
    destruct (member d !! mid r) as [m |] eqn:Hm; [| done]. simpl in Hrow.
    destruct (book d !! bid r) as [b |] eqn:Hb; [| done].
    injection Hrow as <-. by exists r, m, b.
  - intros (r & m & b & Hr & Hm & Hb & Hrow). exists (r_sid row).
    split; [apply elem_of_sorted_sids; by eexists |].
    unfold report_row_of. rewrite Hr. simpl. rewrite Hm. simpl.
    rewrite Hb. simpl. by rewrite Hrow.
Qed.

Lemma report_row_of_sid d sid row :
  report_row_of d sid = Some row → r_sid row = sid.
Proof.
  unfold report_row_of. destruct (sale d !! sid) as [r |]; [| done]. simpl.
  destruct (member d !! mid r); [| done]. simpl.
  destruct (book d !! bid r); [| done]. by intros [= <-].
Qed.

Lemma report_rows_sids d :
  r_sid <$> report_rows d =
    filter (λ sid, is_Some (report_row_of d sid)) (sorted_sids (sale d)).
Proof.
  unfold report_rows.
  induction (sorted_sids (sale d)) as [| x l IH]; [done |].
  cbn [omap list_omap]. rewrite filter_cons.
  destruct (report_row_of d x) as [row |] eqn:Hrow.
  - rewrite decide_True by by eexists. cbn [fmap list_fmap].
    by rewrite IH, (report_row_of_sid _ _ _ Hrow).
  - rewrite decide_False; [done |]. by intros [? ?].
Qed.

Lemma report_rows_sorted d : StronglySorted Z.lt (r_sid <$> report_rows d).
Proof.
  rewrite report_rows_sids. apply StronglySorted_filter.
  apply StronglySorted_le_lt; [apply sorted_sids_sorted |].
  apply NoDup_sorted_sids.
Qed.

Lemma report_rows_complete d :
  sale_rows_ok d → r_sid <$> report_rows d = sorted_sids (sale d).
Proof.
  intros Hd. rewrite report_rows_sids.
  assert (Forall (λ sid, is_Some (report_row_of d sid))
            (sorted_sids (sale d))) as Hall.
  { apply Forall_forall. intros sid [r Hr]%elem_of_sorted_sids.
    destruct (Hd sid r Hr) as (_ & _ & [m Hm] & b & Hb & _).
    unfold report_row_of. rewrite Hr. simpl. rewrite Hm. simpl.
    rewrite Hb. by eexists. }
  induction Hall as [| x l Hx _ IH]; [done |].
  by rewrite filter_cons_True, IH.
Qed.

(** X11: [print_sale_report] never fails, reads no input and leaves the
    store as it is.  It writes a single line when no sale has both its
    member and its book, and otherwise a heading followed by twelve lines
    for each such sale. *)
Theorem print_sale_report_effect w :
  let rows := report_rows (conn w) in
  print_sale_report w =
    (Done (), World (conn w) (stdin w) (stdout w ++ report_text rows)) ∧
  length (report_text rows) = (1 + 12 * length rows)%nat.
Proof.
  intros rows. split; [apply print_sale_report_writes |].
  destruct rows as [| row rows']; [done |].
  cbn [report_text length]. rewrite length_fmap, length_report_blocks.
  simpl. lia.
Qed.

(** X12: the report shows the sales that have both their member and their
    book, and no other, each once and in ascending order of identifier;
    each entry carries the sale's stored date, quantity, discount and
    total, the member's name and the book's title and current price. *)
Theorem report_rows_spec d :
  StronglySorted Z.lt (r_sid <$> report_rows d) ∧
  ∀ row,
    row ∈ report_rows d ↔
    ∃ r m b, sale d !! r_sid row = Some r ∧ member d !! mid r = Some m ∧
             book d !! bid r = Some b ∧
             row = ReportRow (r_sid row) (sdate r) (sqty r) (sdiscount r)
                             (stotal r) (mname m) (btitle b) (bprice b).
Proof. split; [apply report_rows_sorted | apply report_entry]. Qed.

(** X13: in every state reachable from the seeded store the report leaves
    no sale out, and the total it shows for each sale is the pricing
    formula applied to the price, quantity and discount shown beside it. *)
Theorem reachable_report_complete d :
  reachable d →
  length (report_rows d) = size (sale d) ∧
  ∀ row, row ∈ report_rows d →
         r_stotal row
           = price_total (r_bprice row) (r_sqty row) (r_sdiscount row).
Proof.
  intros Hd.
  pose proof (steps_sale_rows_ok _ _ Hd seeded_sale_rows_ok) as Hok.
  split.
  - rewrite <- length_sorted_sids, <- (report_rows_complete d Hok).
    by rewrite length_fmap.
  - intros row (r & m & b & Hr & _ & Hb & ->)%report_entry. simpl.
    destruct (Hok _ r Hr) as (_ & _ & _ & b' & Hb' & Htotal).
    by assert (b' = b) as -> by congruence.
Qed.

Lemma reachable_report_complete_witness :
  let d := run_op (UpdateDiscount [Num 2; Num 1000]) seeded_db in
  length (report_rows d) = size (sale d) ∧
  ∀ row, row ∈ report_rows d →
         r_stotal row
           = price_total (r_bprice row) (r_sqty row) (r_sdiscount row).
Proof.
  apply (reachable_report_complete
           (run_op (UpdateDiscount [Num 2; Num 1000]) seeded_db)).
  apply steps_op, steps_refl.
Defined.

(** ** Thousands separators *)

Lemma without_commas_list l :
  without_commas (string_of_list_ascii l) =
    string_of_list_ascii (filter (λ a, a ≠ ","%char) l).
Proof.
  induction l as [| a l IH]; [done |]. simpl. rewrite filter_cons.
  destruct (decide (a = ","%char)) as [-> | Hne].
  - by rewrite decide_False by (by intros ?).
  - rewrite decide_True by done. simpl. by rewrite IH.
Qed.

Lemma filter_group3 (P : Ascii.ascii → Prop) `{∀ a, Decision (P a)} r :
  ¬ P ","%char → filter P (group3 r) = filter P r.
Proof.
  intros Hcomma.
  assert (∀ n r, (length r ≤ n)%nat → filter P (group3 r) = filter P r)
    as Hall; [| by apply (Hall (length r))].
  clear r. induction n as [| n IH]; intros r Hlen.
  { destruct r; [done | simpl in Hlen; lia]. }
  destruct r as [| a [| b [| c [| e rest]]]]; try done.
  change (group3 (a :: b :: c :: e :: rest))
    with ([a; b; c] ++ ","%char :: group3 (e :: rest))%list.
  change (a :: b :: c :: e :: rest) with ([a; b; c] ++ e :: rest)%list.
  rewrite !filter_app. f_equal.
  rewrite (filter_cons _ ","%char), decide_False by done.
  apply IH. simpl in *. lia.
Qed.

Lemma filter_all {A} (P : A → Prop) `{∀ x, Decision (P x)} l :
  Forall P l → filter P l = l.
Proof.
  induction 1 as [| x l Hx _ IH]; [done |].
  by rewrite filter_cons_True, IH.
Qed.

Lemma without_with_commas s :
  Forall (λ a, a ≠ ","%char) (list_ascii_of_string s) →
  without_commas (with_commas s) = s.
Proof.
  intros Hs. unfold with_commas.
  rewrite without_commas_list, filter_reverse.
  rewrite filter_group3 by (by intros ?).
  rewrite filter_reverse, reverse_involutive, filter_all by done.
  apply string_of_list_ascii_of_string.
Qed.

Lemma pretty_N_go_no_comma x s :
  Forall (λ a, a ≠ ","%char) (list_ascii_of_string s) →
  Forall (λ a, a ≠ ","%char) (list_ascii_of_string (pretty_N_go x s)).
Proof.
  revert s. induction (N.lt_wf_0 x) as [x _ IH]; intros s Hs.
  destruct (decide (x = 0%N)) as [-> | Hx].
  - by rewrite pretty_N_go_0.
  - rewrite pretty_N_go_step by lia. apply IH.
    + apply N.div_lt; lia.
    + simpl. constructor; [| done].
      unfold pretty_N_char. by repeat case_match.
Qed.

Lemma pretty_N_no_comma (x : N) :
  Forall (λ a, a ≠ ","%char) (list_ascii_of_string (pretty x)).
Proof.
  unfold pretty, pretty_N. case_decide.
  - by repeat constructor.
  - apply pretty_N_go_no_comma. constructor.
Qed.

(** X14: removing the commas from a total as the report and the update
    message show it gives back the decimal text of the number, sign
    included. *)
Theorem thousands_round_trip z : without_commas (thousands z) = pretty z.
Proof.
  destruct z as [| p | p]; [done | |]; unfold thousands.
  - apply without_with_commas, (pretty_N_no_comma (N.pos p)).
  - change (pretty (Z.neg p)) with ("-" +:+ pretty (Z.pos p)).
    change (without_commas ("-" +:+ with_commas (pretty (Z.pos p))))
      with ("-" +:+ without_commas (with_commas (pretty (Z.pos p)))).
    f_equal. apply without_with_commas, (pretty_N_no_comma (N.pos p)).
Qed.

(** ** The interactive functions at the terminal *)

Lemma io_bind_Done {A B} (m : IO A) (k : A → IO B) w a w' :
  m w = (Done a, w') → io_bind m k w = k a w'.
Proof. unfold io_bind. by intros ->. Qed.

Lemma io_bind_Crash {A B} (m : IO A) (k : A → IO B) w c w' :
  m w = (Crash c, w') → io_bind m k w = (Crash c, w').
Proof. unfold io_bind. by intros ->. Qed.

Lemma io_bind_select_sales {A} (k : list (Z * string * string) → IO A) w :
  io_bind (lift select_sales) k w = k (sales_listing (conn w)) w.
Proof. by destruct w. Qed.

Lemma io_bind_input_cons {A} prompt (k : string → IO A) d l lines out :
  io_bind (input prompt) k (World d (l :: lines) out)
    = k l (World d lines (out ++ [Prompt prompt])).
Proof. reflexivity. Qed.

Lemma io_bind_input_nil {A} prompt (k : string → IO A) d out :
  io_bind (input prompt) k (World d [] out)
    = (Crash (Uncaught EOFError), World d [] (out ++ [Prompt prompt])).
Proof. reflexivity. Qed.

Lemma enumerate_lookup {A} start (l : list A) i :
  enumerate start l !! i = (λ x, ((start + i)%nat, x)) <$> l !! i.
Proof.
  revert start i. induction l as [| x l IH]; intros start [| i]; try done.
  - simpl. by rewrite Nat.add_0_r.
  - simpl. rewrite IH. by replace (S start + i)%nat with (start + S i)%nat by lia.
Qed.

Lemma for_each_listing start sales w :
  for_each (enumerate start sales)
    (λ '(idx, row), print (listing_line idx row)) w =
    (Done (), World (conn w) (stdin w)
       (stdout w ++ (Print <$> ((λ '(idx, row), listing_line idx row)
                                  <$> enumerate start sales)))).
Proof.
  revert start w. induction sales as [| row sales IH]; intros start w.
  - simpl. unfold io_ret. rewrite app_nil_r. by destruct w.
  - cbn [enumerate for_each fmap list_fmap].
    unfold io_bind, print at 1. rewrite IH. cbn [conn stdin stdout].
    by rewrite <- app_assoc.
Qed.

Lemma print_listing_writes sales w :
  print_listing sales w =
    (Done (), World (conn w) (stdin w) (stdout w ++ listing_text sales)).
Proof.
  unfold print_listing, io_bind, print at 1. rewrite for_each_listing.
  unfold print. cbn [conn stdin stdout listing_text].
  by rewrite <- !app_assoc.
Qed.

(** X15: the number shown in front of a sale in the listing is the number
    that picks it: when typing [k] selects sale [sid], the line that
    [print_listing] writes at position [k] is the entry numbered [k], and it
    names [sid]. *)
Theorem listing_numbers sales k sid w :
  1 ≤ k → nth_sid sales k = Some sid →
  ∃ row,
    sales !! Z.to_nat (k - 1) = Some row ∧ row.1.1 = sid ∧
    listing_line (Z.to_nat k) row
      = pretty (Z.to_nat k) +:+ ". 銷售編號: " +:+ pretty sid +:+
        " - 會員: " +:+ row.2 +:+ " - 日期: " +:+ row.1.2 ∧
    listing_text sales !! Z.to_nat k
      = Some (Print (listing_line (Z.to_nat k) row)) ∧
    stdout (print_listing sales w).2 = (stdout w ++ listing_text sales)%list.
Proof.
  intros Hk Hsid. unfold nth_sid in Hsid.
  destruct (sales !! Z.to_nat (k - 1)) as [row |] eqn:Hrow; [| done].
  injection Hsid as Hsid. exists row. split; [done |]. split; [done |].
  split; [by rewrite <- Hsid |].
  split; [| by rewrite print_listing_writes].
  unfold listing_text.
  replace (Z.to_nat k) with (S (Z.to_nat (k - 1))) by lia.
  change ((?x :: ?l) !! S ?i) with (l !! i).
  apply (lookup_app_l_Some _ [Print "================================"]).
  by rewrite !list_lookup_fmap, enumerate_lookup, Hrow.
Qed.

Lemma listing_numbers_witness :
  ∃ row,
    sales_listing seeded_db !! Z.to_nat (3 - 1) = Some row ∧ row.1.1 = 3 ∧
    listing_line (Z.to_nat 3) row
      = pretty (Z.to_nat 3) +:+ ". 銷售編號: " +:+ pretty 3 +:+
        " - 會員: " +:+ row.2 +:+ " - 日期: " +:+ row.1.2 ∧
    listing_text (sales_listing seeded_db) !! Z.to_nat 3
      = Some (Print (listing_line (Z.to_nat 3) row)) ∧
    stdout (print_listing (sales_listing seeded_db)
              (World seeded_db [] [])).2
      = ([] ++ listing_text (sales_listing seeded_db))%list.
Proof.
  apply (listing_numbers (sales_listing seeded_db) 3 3
           (World seeded_db [] [])).
  - lia.
  - vm_compute. reflexivity.
Defined.

Section terminal_facts.
Variable int : string → option Z.

(** *** The terminal functions against the operations on the store *)

Lemma apply_discount_io_refines sid nd w :
  let res := apply_discount sid nd (conn w) in
  let res' := apply_discount_io sid nd w in
  conn res'.2 = res.2 ∧ stdin res'.2 = stdin w ∧
  res'.1 = match res.1 with
           | Val _ => Done ()
           | Exc e => Crash (Uncaught e)
           end.
Proof.
  destruct w as [d lines out].
  unfold apply_discount_io, apply_discount, io_bind, bind, lift,
    select_qty_price, update_sale_discount, commit, ret, print.
  cbn [conn stdin stdout].
  destruct (sale d !! sid ≫= _) as [[q p] |]; [| done].
  cbn [conn stdin stdout]. by destruct (_ && _).
Qed.

Lemma update_sale_io_refines w :
  let res := update_sale (classify int <$> stdin w) (conn w) in
  let res' := update_sale_io int w in
  conn res'.2 = res.2 ∧ stdin res'.2 `suffix_of` stdin w ∧
  res'.1 = match res.1 with
           | Val _ => Done ()
           | Exc e => Crash (Uncaught e)
           end.
Proof.
  destruct w as [d lines out]. cbn [conn stdin].
  unfold update_sale_io, update_sale.
  rewrite bind_select_sales, io_bind_select_sales. cbn [conn].
  destruct (sales_listing d) as [| row sales]; [by repeat split |].
  rewrite (io_bind_Done _ _ _ _ _ (print_listing_writes _ _)).
  cbn [conn stdin stdout].
  destruct lines as [| l lines];
    [rewrite io_bind_input_nil; by repeat split |].
  rewrite io_bind_input_cons. cbn [fmap list_fmap].
  destruct (classify int l) as [| | k];
    [split; [done | split; [suffix_tac | done]] .. |].
  destruct (_ || _); [split; [done | split; [suffix_tac | done]] |].
  destruct (nth_sid _ k) as [sid |];
    [| split; [done | split; [suffix_tac | done]]].
  destruct lines as [| l' lines];
    [rewrite io_bind_input_nil; split; [done | split; [suffix_tac | done]] |].
  rewrite io_bind_input_cons. cbn [fmap list_fmap].
  destruct (classify int l') as [| | nd];
    [split; [done | split; [suffix_tac | done]] .. |].
  destruct (nd <? 0); [split; [done | split; [suffix_tac | done]] |].
  match goal with
  | |- context [apply_discount_io sid nd ?w] =>
      destruct (apply_discount_io_refines sid nd w) as (Hc & Hs & Hr)
  end.
  cbn [conn stdin] in Hc, Hs, Hr.
  rewrite Hc, Hs, Hr. split; [done |]. split; [suffix_tac | done].
Qed.

Lemma ask_choice_refines n lines out :
  let res' := ask_choice int n lines out in
  res'.1 = match read_choice n (classify int <$> lines) with
           | Val x => Done x
           | Exc e => Crash (Uncaught e)
           end ∧
  res'.2.1 `suffix_of` lines.
Proof.
  revert out. induction lines as [| l lines IH]; intros out.
  - simpl. split; [done | suffix_tac].
  - cbn [ask_choice read_choice fmap list_fmap].
    destruct (classify int l) as [| | c].
    + simpl. split; [done | suffix_tac].
    + match goal with
      | |- context [ask_choice int n lines ?o] =>
          destruct (IH o) as [H1 H2]
      end.
      split; [done | suffix_tac].
    + destruct (_ || _).
      * match goal with
        | |- context [ask_choice int n lines ?o] =>
            destruct (IH o) as [H1 H2]
        end.
        split; [done | suffix_tac].
      * simpl. split; [done | suffix_tac].
Qed.

Lemma io_bind_choose {A} n (k : option Z → IO A) d lines out :
  io_bind (choose int n) k (World d lines out) =
    match ask_choice int n lines out with
    | (Done x, (lines', out')) => k x (World d lines' out')
    | (Crash c, (lines', out')) => (Crash c, World d lines' out')
    end.
Proof.
  unfold io_bind, choose. cbn [conn stdin stdout].
  by destruct (ask_choice int n lines out) as [[x | c] [lines' out']].
Qed.

Lemma delete_sale_io_refines w :
  let res := delete_sale (classify int <$> stdin w) (conn w) in
  let res' := delete_sale_io int w in
  conn res'.2 = res.2 ∧ stdin res'.2 `suffix_of` stdin w ∧
  res'.1 = match res.1 with
           | Val _ => Done ()
           | Exc e => Crash (Uncaught e)
           end.
Proof.
  destruct w as [d lines out]. cbn [conn stdin].
  unfold delete_sale_io, delete_sale.
  rewrite bind_select_sales, io_bind_select_sales. cbn [conn].
  destruct (sales_listing d) as [| row sales]; [done |].
  rewrite (io_bind_Done _ _ _ _ _ (print_listing_writes _ _)).
  cbn [conn stdin stdout].
  rewrite io_bind_choose.
  pose proof (ask_choice_refines (length (row :: sales)) lines
                (out ++ listing_text (row :: sales))) as [Hr Hs].
  destruct (ask_choice _ _ _ _) as [r [lines' out']].
  cbn [fst snd] in Hr, Hs.
  destruct (read_choice _ _) as [[k |] | e]; subst r;
    [| by repeat split ..].
  destruct (nth_sid _ k) as [sid |]; by repeat split.
Qed.

(** *** One round of the menu *)

Lemma session_step_refl w : session_step w w.
Proof. split; [apply steps_refl | done]. Qed.

Lemma steps_trans d1 d2 d3 : steps d1 d2 → steps d2 d3 → steps d1 d3.
Proof. intros H12. induction 1; [done |]. by apply steps_op. Qed.

Lemma io_bind_print {A} s (k : unit → IO A) w :
  io_bind (print s) k w
    = k () (World (conn w) (stdin w) (stdout w ++ [Print s])).
Proof. reflexivity. Qed.

Lemma io_bind_lift {A B} (m : M A) (k : A → IO B) d lines out :
  io_bind (lift m) k (World d lines out) =
    match m d with
    | (Val a, d') => k a (World d' lines out)
    | (Exc e, d') => (Crash (Uncaught e), World d' lines out)
    end.
Proof.
  unfold io_bind, lift. cbn [conn stdin stdout].
  by destruct (m d) as [[a | e] d'].
Qed.

Lemma io_bind_input_int_cons {A} prompt (k : Z → IO A) d l lines out :
  io_bind (input_int int prompt) k (World d (l :: lines) out) =
    match classify int l with
    | Num z => k z (World d lines (out ++ [Prompt prompt]))
    | _ => (Crash ValueError, World d lines (out ++ [Prompt prompt]))
    end.
Proof.
  unfold input_int. unfold io_bind at 1. rewrite io_bind_input_cons.
  by destruct (classify int l).
Qed.

Lemma io_bind_input_int_nil {A} prompt (k : Z → IO A) d out :
  io_bind (input_int int prompt) k (World d [] out)
    = (Crash (Uncaught EOFError), World d [] (out ++ [Prompt prompt])).
Proof. unfold input_int. unfold io_bind at 1. by rewrite io_bind_input_nil. Qed.

(** What choice 1 does, by the lines it finds. *)
Lemma menu_add_sale_cases d lines out :
  let res := menu_add_sale int (World d lines out) in
  (conn res.2 = d ∧ stdin res.2 `suffix_of` lines ∧ res.1 ≠ Done ()) ∨
  (∃ sdate mid bid l4 l5 q disc rest,
     lines = sdate :: mid :: bid :: l4 :: l5 :: rest ∧
     classify int l4 = Num q ∧ classify int l5 = Num disc ∧
     conn res.2 = (add_sale sdate mid bid q disc d).2 ∧
     stdin res.2 = rest ∧
     res.1 = match (add_sale sdate mid bid q disc d).1 with
             | Val _ => Done ()
             | Exc e => Crash (Uncaught e)
             end).
Proof.
  intros res. subst res. unfold menu_add_sale. rewrite io_bind_print.
  cbn [conn stdin stdout].
  destruct lines as [| sdate lines];
    [rewrite io_bind_input_nil; left; by repeat split |].
  rewrite io_bind_input_cons.
  destruct lines as [| mid lines];
    [rewrite io_bind_input_nil; left; split; [done | split; [suffix_tac | done]] |].
  rewrite io_bind_input_cons.
  destruct lines as [| bid lines];
    [rewrite io_bind_input_nil; left; split; [done | split; [suffix_tac | done]] |].
  rewrite io_bind_input_cons.
  destruct lines as [| l4 lines];
    [rewrite io_bind_input_int_nil; left;
     split; [done | split; [suffix_tac | done]] |].
  rewrite io_bind_input_int_cons.
  destruct (classify int l4) as [| | q] eqn:Hq;
    [left; split; [done | split; [suffix_tac | done]] .. |].
  destruct lines as [| l5 lines];
    [rewrite io_bind_input_int_nil; left;
     split; [done | split; [suffix_tac | done]] |].
  rewrite io_bind_input_int_cons.
  destruct (classify int l5) as [| | disc] eqn:Hdisc;
    [left; split; [done | split; [suffix_tac | done]] .. |].
  right. exists sdate, mid, bid, l4, l5, q, disc, lines.
  rewrite io_bind_lift.
  destruct (add_sale sdate mid bid q disc d) as [[[ok msg] | e] d'];
    by repeat split.
Qed.

Lemma menu_add_sale_step w : session_step w (menu_add_sale int w).2.
Proof.
  destruct w as [d lines out].
  destruct (menu_add_sale_cases d lines out)
    as [(Hc & Hs & _) | (sdate & mid & bid & l4 & l5 & q & disc & rest
                         & -> & _ & _ & Hc & Hs & _)];
    split; cbn [conn stdin]; rewrite ?Hc, ?Hs.
  - apply steps_refl.
  - done.
  - apply (steps_op d d (CreateSale sdate mid bid q disc)), steps_refl.
  - suffix_tac.
Qed.

Lemma print_sale_report_step w : session_step w (print_sale_report w).2.
Proof.
  rewrite print_sale_report_writes. split; [apply steps_refl | done].
Qed.

Lemma print_step s w : session_step w (print s w).2.
Proof. split; [apply steps_refl | done]. Qed.

Lemma update_sale_io_step w : session_step w (update_sale_io int w).2.
Proof.
  destruct (update_sale_io_refines w) as (Hc & Hs & _).
  split; [| done]. rewrite Hc.
  apply (steps_op _ _ (UpdateDiscount (classify int <$> stdin w))), steps_refl.
Qed.

Lemma delete_sale_io_step w : session_step w (delete_sale_io int w).2.
Proof.
  destruct (delete_sale_io_refines w) as (Hc & Hs & _).
  split; [| done]. rewrite Hc.
  apply (steps_op _ _ (DeleteSale (classify int <$> stdin w))), steps_refl.
Qed.

Lemma then_ret_snd {A} (m : IO unit) (a : A) w :
  (io_bind m (λ _, io_ret a) w).2 = (m w).2.
Proof. unfold io_bind, io_ret. by destruct (m w) as [[[] | c] w']. Qed.

Lemma then_ret_fst {A} (m : IO unit) (a : A) w b :
  (io_bind m (λ _, io_ret a) w).1 = Done b → b = a.
Proof.
  unfold io_bind, io_ret. destruct (m w) as [[[] | c] w']; simpl; congruence.
Qed.

Lemma dispatch_step choice w :
  session_step w (dispatch int choice w).2 ∧
  ∀ b, (dispatch int choice w).1 = Done b → b = false → choice = "5".
Proof.
  unfold dispatch. repeat case_decide; try subst choice;
    (split; [rewrite then_ret_snd | intros b Hb%then_ret_fst; congruence]).
  - apply menu_add_sale_step.
  - apply print_sale_report_step.
  - apply update_sale_io_step.
  - apply delete_sale_io_step.
  - apply print_step.
  - apply print_step.
Qed.

(** A round that does not crash has read at least one line. *)
Lemma menu_round_step w :
  match stdin w with
  | [] => menu_round int w
            = (Crash (Uncaught EOFError),
               World (conn w) []
                     (stdout w ++ [Print "請選擇操作項目(Enter 離開)："]))
  | choice :: rest =>
      let res := menu_round int w in
      steps (conn w) (conn res.2) ∧ stdin res.2 `suffix_of` rest ∧
      ∀ b, res.1 = Done b → b = false → choice = "5"
  end.
Proof.
  destruct w as [d [| choice rest] out]; [done |].
  cbn [stdin conn]. unfold menu_round. rewrite io_bind_print.
  unfold io_bind at 1, read_line. cbn [conn stdin stdout].
  destruct (dispatch_step choice
              (World d rest (out ++ [Print "請選擇操作項目(Enter 離開)："])))
    as [[Hsteps Hsuffix] Hb].
  by repeat split.
Qed.

(** With more rounds than lines the loop comes to an end. *)
Lemma main_loop_ends rounds w :
  (length (stdin w) < rounds)%nat →
  ∃ r w', main_loop int rounds w = Some (r, w') ∧
          steps (conn w) (conn w') ∧ stdin w' `suffix_of` stdin w ∧
          (r = Done () → "5" ∈ stdin w) ∧
          (stdin w = [] → r = Crash (Uncaught EOFError)).
Proof.
  revert w. induction rounds as [| rounds IH]; intros w Hlen; [lia |].
  cbn [main_loop]. pose proof (menu_round_step w) as Hround.
  destruct (stdin w) as [| choice rest] eqn:Hw.
  - rewrite Hround. eexists _, _. split; [done |].
    cbn [conn stdin]. repeat split; [apply steps_refl | done ..].
  - cbv zeta in Hround. destruct Hround as (Hsteps & Hsuffix & Hb).
    destruct (menu_round int w) as [[[] | c] w1]; cbn [fst snd] in *.
    + destruct (IH w1) as (r & w' & Hloop & Hsteps' & Hsuffix' & H5 & _).
      { apply suffix_length in Hsuffix. simpl in Hlen. lia. }
      exists r, w'. split; [done |].
      split; [by eapply steps_trans |].
      split; [by etrans; [| apply suffix_cons_r] |].
      split; [| done]. intros Hr. right.
      eapply elem_of_suffix; [by apply H5 | done].
    + exists (Done ()), w1. split; [done |]. split; [done |].
      split; [by apply suffix_cons_r |]. split; [| done].
      intros _. rewrite (Hb false eq_refl eq_refl). by left.
    + exists (Crash c), w1. split; [done |]. split; [done |].
      split; [by apply suffix_cons_r |]. by split.
Qed.

(** *** A whole session *)

Lemma print_menu_writes d lines :
  ∃ out, print_menu (World d lines []) = (Done (), World d lines out).
Proof. by eexists. Qed.

Lemma main_outcome file lines :
  ∃ r w, main int file lines = Some (r, w) ∧
         steps (initialize_db (connect_db file)).2 (conn w) ∧
         stdin w `suffix_of` lines ∧
         (r = Done () → "5" ∈ lines).
Proof.
  unfold main. destruct (initialize_db (connect_db file)) as [[[] | e] d].
  - destruct (print_menu_writes d lines) as [out ->].
    destruct (main_loop_ends (S (length lines)) (World d lines out))
      as (r & w & Hloop & Hsteps & Hsuffix & H5 & _); [simpl; lia |].
    by exists r, w.
  - eexists _, _. split; [done |]. cbn [conn stdin snd].
    split; [apply steps_refl |]. by split.
Qed.

Lemma session_file_start file :
  session_file file →
  ∃ d, reachable d ∧ initialize_db (connect_db file) = (Val (), d).
Proof.
  intros [-> | (d & Hd & ->)].
  - exists seeded_db. split; [apply steps_refl | by vm_compute].
  - exists d. split; [done |]. cbn [connect_db].
    rewrite <- (create_tables_store_of d) at 2.
    apply initialize_db_gate_closed. rewrite create_tables_store_of.
    rewrite (steps_member _ _ Hd). by vm_compute.
Qed.

Lemma unknown_choice_round choice d rest out :
  choice ∉ menu_choices →
  menu_round int (World d (choice :: rest) out)
    = (Done true,
       World d rest (out ++ [Print "請選擇操作項目(Enter 離開)："]
                         ++ [Print "無效的選項，請重新選擇。"])).
Proof.
  intros Hchoice. unfold menu_round. rewrite io_bind_print.
  unfold io_bind at 1, read_line. cbn [conn stdin stdout].
  unfold dispatch, menu_choices in *.
  repeat (case_decide; [subst choice; set_solver |]).
  rewrite io_bind_print. cbn [conn stdin stdout]. unfold io_ret.
  by rewrite <- app_assoc.
Qed.

Lemma unknown_choices_loop lines rounds d out :
  (length lines < rounds)%nat → Forall (λ l, l ∉ menu_choices) lines →
  ∃ out', main_loop int rounds (World d lines out)
            = Some (Crash (Uncaught EOFError), World d [] out').
Proof.
  revert rounds out. induction lines as [| l lines IH];
    intros rounds out Hlen Hall; (destruct rounds as [| rounds]; [simpl in *; lia |]).
  - by eexists.
  - apply Forall_cons in Hall as [Hl Hall]. cbn [main_loop].
    rewrite unknown_choice_round by done.
    apply IH; [simpl in Hlen; lia | done].
Qed.


(** X16: a session always comes to an end, and [main] returns normally
    only if one of the lines typed is [5]; what is left of the input is a
    suffix of what was typed. *)
Theorem main_ends file lines :
  ∃ r w, main int file lines = Some (r, w) ∧
         stdin w `suffix_of` lines ∧
         (r = Done () → "5" ∈ lines).
Proof.
  destruct (main_outcome file lines) as (r & w & Hmain & _ & Hsuffix & H5).
  by exists r, w.
Qed.

(** X17: started without a database file, or on the file an earlier session
    has left, a session leaves the store in a state reachable from the
    seeded store by the operations of the engine, whatever is typed and
    however the session ends.  So every stock is [>= 0], every sale row is
    well formed and the members are the seed members, and the file is fit
    for the next session. *)
Theorem session_keeps_invariants file lines r w :
  session_file file → main int file lines = Some (r, w) →
  reachable (conn w) ∧ stock_nonneg (conn w) ∧ sale_rows_ok (conn w) ∧
  member (conn w) = member seeded_db ∧
  session_file (Some (store_of (conn w))).
Proof.
  intros (d & Hd & Hinit)%session_file_start Hmain.
  destruct (main_outcome file lines) as (r' & w' & Hmain' & Hsteps & _).
  rewrite Hmain in Hmain'. injection Hmain' as <- <-.
  rewrite Hinit in Hsteps. cbn [snd] in Hsteps.
  assert (reachable (conn w)) as Hw by (by eapply steps_trans).
  split; [done |].
  split; [exact (steps_stock_nonneg _ _ Hw seeded_stock_nonneg) |].
  split; [exact (steps_sale_rows_ok _ _ Hw seeded_sale_rows_ok) |].
  split; [exact (steps_member _ _ Hw) |].
  right. by exists (conn w).
Qed.

(** X18: a line that is not one of [1] to [5] changes nothing and does not
    end the session, and that holds for the empty line too, although the
    prompt says that Enter leaves.  A session in which only such lines are
    typed ends with [EOFError] when the input runs out, the store being
    what [initialize_db] made it. *)
Theorem unknown_choices_never_exit file d lines :
  initialize_db (connect_db file) = (Val (), d) →
  Forall (λ l, l ∉ menu_choices) lines →
  ∃ w, main int file lines = Some (Crash (Uncaught EOFError), w) ∧
       conn w = d ∧ stdin w = [].
Proof.
  intros Hinit Hall. unfold main. rewrite Hinit.
  destruct (print_menu_writes d lines) as [out ->].
  destruct (unknown_choices_loop lines (S (length lines)) d out)
    as [out' ->]; [lia | done |].
  by eexists.
Qed.

(** X19: in choice 1 of the menu a quantity or a discount that [int] does
    not accept is fatal: [main] ends with an uncaught [ValueError], the
    store is what it was and [add_sale] has not been called.  After a bad
    quantity the discount is not even asked for. *)
Theorem add_sale_input_not_integer file d sdate mid bid l4 l5 rest :
  initialize_db (connect_db file) = (Val (), d) →
  (∀ z, classify int l4 ≠ Num z) ∨ (∀ z, classify int l5 ≠ Num z) →
  ∃ w, main int file ("1" :: sdate :: mid :: bid :: l4 :: l5 :: rest)
         = Some (Crash ValueError, w) ∧
       conn w = d ∧
       stdin w = if classify int l4 is Num _ then rest else l5 :: rest.
Proof.
  intros Hinit Hbad. unfold main. rewrite Hinit.
  destruct (print_menu_writes d ("1" :: sdate :: mid :: bid :: l4 :: l5 :: rest))
    as [out ->].
  cbn [main_loop length]. unfold menu_round. rewrite io_bind_print.
  unfold io_bind at 1, read_line. cbn [conn stdin stdout].
  unfold dispatch. rewrite decide_True by done.
  unfold io_bind at 1, menu_add_sale. rewrite io_bind_print.
  cbn [conn stdin stdout]. rewrite !io_bind_input_cons.
  rewrite io_bind_input_int_cons.
  destruct (classify int l4) as [| | q] eqn:Hq; [by eexists .. |].
  rewrite io_bind_input_int_cons.
  destruct (classify int l5) as [| | disc] eqn:Hdisc; [by eexists .. |].
  destruct Hbad as [Hbad | Hbad]; by destruct (Hbad _ eq_refl).
Qed.


End terminal_facts.

Lemma session_keeps_invariants_witness :
  let lines := ["1"; "2024-02-01"; "M001"; "B001"; "2"; "100";
                "3"; "5"; "50"; "4"; "1"; "5"] in
  let w := from_option snd (World seeded_db [] [])
             (main int_decimal None lines) in
  reachable (conn w) ∧ stock_nonneg (conn w) ∧ sale_rows_ok (conn w) ∧
  member (conn w) = member seeded_db ∧
  session_file (Some (store_of (conn w))).
Proof.
  apply (session_keeps_invariants int_decimal None
           ["1"; "2024-02-01"; "M001"; "B001"; "2"; "100";
            "3"; "5"; "50"; "4"; "1"; "5"] (Done ())).
  - left. reflexivity.
  - vm_compute. reflexivity.
Defined.

Lemma unknown_choices_never_exit_witness :
  ∃ w, main int_decimal None [""; "6"; ""; "exit"]
         = Some (Crash (Uncaught EOFError), w) ∧
       conn w = seeded_db ∧ stdin w = [].
Proof.
  apply (unknown_choices_never_exit int_decimal None seeded_db
           [""; "6"; ""; "exit"]).
  - vm_compute. reflexivity.
  - apply (bool_decide_unpack _). vm_compute. exact I.
Defined.

Lemma add_sale_input_not_integer_witness :
  ∃ w, main int_decimal None
         ["1"; "2024-02-01"; "M001"; "B001"; "two"; "100"; "5"]
         = Some (Crash ValueError, w) ∧
       conn w = seeded_db ∧
       stdin w = if classify int_decimal "two" is Num _ then ["5"]
                 else ["100"; "5"].
Proof.
  apply (add_sale_input_not_integer int_decimal None seeded_db
           "2024-02-01" "M001" "B001" "two" "100" ["5"]).
  - vm_compute. reflexivity.
  - left. intros z. vm_compute. discriminate.
Defined.

(** ** The initializer and the rows it finds *)

Lemma keeps_rows_refl d : keeps_rows d d.
Proof. by repeat split. Qed.

Lemma keeps_rows_trans d1 d2 d3 :
  keeps_rows d1 d2 → keeps_rows d2 d3 → keeps_rows d1 d3.
Proof.
  intros (? & ? & ?) (? & ? & ?). repeat split; by etrans.
Qed.

Lemma only_adds_ret {A} (a : A) : only_adds (ret a).
Proof. intros d. apply keeps_rows_refl. Qed.

Lemma only_adds_bind {A B} (m : M A) (k : A → M B) :
  only_adds m → (∀ a, only_adds (k a)) → only_adds (bind m k).
Proof.
  intros Hm Hk d. unfold bind. specialize (Hm d).
  destruct (m d) as [[a | e] d']; simpl in *; [| done].
  eapply keeps_rows_trans; [done | apply Hk].
Qed.

Lemma only_adds_insert_member k r : only_adds (insert_member k r).
Proof.
  intros d. unfold insert_member.
  destruct (member d !! k) eqn:Hk; [apply keeps_rows_refl |].
  repeat split; simpl; [by apply insert_subseteq | done ..].
Qed.

Lemma only_adds_insert_book k r : only_adds (insert_book k r).
Proof.
  intros d. unfold insert_book.
  destruct (book d !! k) eqn:Hk; [apply keeps_rows_refl |].
  repeat split; simpl; [done | by apply insert_subseteq | done].
Qed.

Lemma only_adds_insert_sale r : only_adds (insert_sale r).
Proof.
  intros d. unfold insert_sale.
  destruct (_ && _); [| apply keeps_rows_refl].
  destruct (next_sid d) as [sid |] eqn:Hsid; [| apply keeps_rows_refl].
  repeat split; simpl; [done | done |].
  by apply insert_subseteq, next_sid_fresh.
Qed.

Lemma only_adds_script stmts : Forall only_adds stmts → only_adds (script stmts).
Proof.
  induction 1 as [| stmt stmts Hstmt _ IH]; simpl.
  - apply only_adds_ret.
  - by apply only_adds_bind.
Qed.

Lemma only_adds_seed_script : only_adds seed_script.
Proof.
  unfold seed_script.
  apply only_adds_bind; [| intros _; apply only_adds_bind; [| intros _]];
    apply only_adds_script, Forall_fmap, Forall_forall.
  - intros [k r] _. apply only_adds_insert_member.
  - intros [k r] _. apply only_adds_insert_book.
  - intros r _. apply only_adds_insert_sale.
Qed.

(** X21: the initializer never removes or changes a row it finds.  On any
    store, and whether the run ends normally or with an exception, every
    member, book and sale that was there once the tables exist is there
    afterwards, with the same columns. *)
Theorem initialize_db_keeps_rows s :
  keeps_rows (create_tables s) (initialize_db s).2.
Proof.
  unfold initialize_db.
  apply (only_adds_bind count_member); [intros d'; apply keeps_rows_refl |].
  intros n. apply only_adds_bind; [| intros _ d'; apply keeps_rows_refl].
  destruct (n =? 0)%nat; [apply only_adds_seed_script | apply only_adds_ret].
Qed.
